(** * drawsvg.defs: elements of the <defs> section

    A shallow embedding of [src/drawsvg/defs.py].  The module is a thin
    layer of constructors over an element base class: each constructor
    rewrites a few of its arguments with Python arithmetic and hands a
    keyword dictionary to the base constructor.  The embedding therefore
    has three layers:

    - the fragment of Python the module runs on (dynamically typed
      values, integer and binary64 arithmetic, exceptions, keyword
      binding, [str.format]);
    - the object store: elements live in a heap and are named by
      references, the class hierarchy is looked up along the MRO;
    - the classes of [defs.py] themselves, one definition per method. *)

From Stdlib Require Import ZArith String Ascii List DecimalString.
From Stdlib Require Import Floats.SpecFloat.
From stdpp Require Import base option list strings gmap.

Local Open Scope string_scope.
Local Open Scope list_scope.
Local Open Scope Z_scope.

(** ** Exceptions and results *)

Inductive exn : Type :=
  | TypeError
  | ValueError
  | IndexError
  | OverflowError
  | AttributeError
  | RuntimeError.

Inductive result (A : Type) : Type :=
  | Ok (a : A)
  | Raise (e : exn).
Arguments Ok {A} a.
Arguments Raise {A} e.

#[global] Instance result_ret : MRet result := λ A a, Ok a.
#[global] Instance result_bind : MBind result := λ A B k r,
  match r with
  | Ok a => k a
  | Raise e => Raise e
  end.
#[global] Instance result_fmap : FMap result := λ A B f r,
  match r with
  | Ok a => Ok (f a)
  | Raise e => Raise e
  end.

(** [try: body / except TypeError: handler]: every other exception
    propagates. *)
Definition except_TypeError {A} (body handler : result A) : result A :=
  match body with
  | Raise TypeError => handler
  | r => r
  end.

(** ** Values *)

(** Python floats are IEEE binary64. *)
Definition prec : Z := 53.
Definition emax : Z := 1024.

Inductive number : Type :=
  | NInt (z : Z)
  | NFloat (f : spec_float).

(** The values an attribute or a coordinate can hold: [None], booleans,
    ints of any size, floats and strings. *)
Inductive value : Type :=
  | VNone
  | VBool (b : bool)
  | VNum (n : number)
  | VStr (s : string).

Definition VInt (z : Z) : value := VNum (NInt z).
Definition VFloat (f : spec_float) : value := VNum (NFloat f).

(** [bool] is a subclass of [int]: in arithmetic [True] is [1]. *)
Definition as_number (v : value) : option number :=
  match v with
  | VBool b => Some (NInt (Z.b2z b))
  | VNum n => Some n
  | VNone | VStr _ => None
  end.

(** ** Arithmetic *)

(** int -> float: round to nearest even, [OverflowError] past the range. *)
Definition float_of_Z (z : Z) : result spec_float :=
  match binary_normalize prec emax z 0 false with
  | S754_infinity _ => Raise OverflowError
  | f => Ok f
  end.

(** [float(n)] *)
Definition py_float (n : number) : result spec_float :=
  match n with
  | NInt z => float_of_Z z
  | NFloat f => Ok f
  end.

(** [a - b] *)
Definition py_sub (a b : value) : result number :=
  match as_number a, as_number b with
  | Some (NInt x), Some (NInt y) => Ok (NInt (x - y))
  | Some x, Some y =>
      fx ← py_float x; fy ← py_float y; Ok (NFloat (SFsub prec emax fx fy))
  | _, _ => Raise TypeError
  end.

(** [-a] *)
Definition py_neg (a : value) : result number :=
  match as_number a with
  | Some (NInt x) => Ok (NInt (- x))
  | Some (NFloat f) => Ok (NFloat (SFopp f))
  | None => Raise TypeError
  end.

(** [f * b] for a float [f] *)
Definition py_mul_float (f : spec_float) (b : value) : result number :=
  match as_number b with
  | Some y => fy ← py_float y; Ok (NFloat (SFmul prec emax f fy))
  | None => Raise TypeError
  end.

(** A float equals an int when it denotes exactly that integer. *)
Definition float_eq_Z (f : spec_float) (z : Z) : bool :=
  match f with
  | S754_zero _ => z =? 0
  | S754_finite s m e =>
      let v := cond_Zopp s (Zpos m) in
      if 0 <=? e then z =? v * 2 ^ e
      else (v mod 2 ^ (- e) =? 0) && (z =? v / 2 ^ (- e))
  | S754_infinity _ | S754_nan => false
  end.

Definition number_eq (x y : number) : bool :=
  match x, y with
  | NInt a, NInt b => a =? b
  | NFloat f, NInt b => float_eq_Z f b
  | NInt a, NFloat g => float_eq_Z g a
  | NFloat f, NFloat g => SFeqb f g
  end.

(** [a == b] *)
Definition py_eq (a b : value) : bool :=
  match a, b with
  | VNone, VNone => true
  | VStr s, VStr t => String.eqb s t
  | _, _ =>
      match as_number a, as_number b with
      | Some x, Some y => number_eq x y
      | _, _ => false
      end
  end.

(** [a != b] *)
Definition py_ne (a b : value) : bool := negb (py_eq a b).

(** ** Strings: [str] and [str.format] *)

(** [str(z)] for an int *)
Definition int_str (z : Z) : string := NilZero.string_of_int (Z.to_int z).

(** *** [repr] of a float

    CPython prints the shortest decimal that reads back as the same
    binary64, the nearest one among the shortest, in positional notation
    when the decimal point falls within the digits' reach and in
    exponent notation otherwise. *)

(** [dec_compare c k num den] compares [c * 10^k] with [num / den]. *)
Definition dec_compare (c k num den : Z) : comparison :=
  if 0 <=? k then (c * 10 ^ k * den ?= num)
  else (c * den ?= num * 10 ^ (- k)).

(** The decimal point of [num / den]: the [k] with
    [10^(k-1) <= num/den < 10^k], searched upwards from below. *)
Fixpoint decpt_from (fuel : nat) (k num den : Z) : Z :=
  match fuel with
  | O => k
  | S fuel' =>
      match dec_compare 1 k num den with
      | Gt => k
      | _ => decpt_from fuel' (k + 1) num den
      end
  end.

Definition decpt_of (num den : Z) : Z :=
  let est := (Z.log2 num - Z.log2 den) * 30103 / 100000 in
  decpt_from 8 (est - 2) num den.

(** Is [c * 10^k] inside the rounding interval [lo/den, hi/den]?  The
    end points belong to it when the mantissa is even. *)
Definition in_interval (closed : bool) (c k lo hi den : Z) : bool :=
  match dec_compare c k lo den, dec_compare c k hi den with
  | Gt, Lt => true
  | Eq, Lt | Gt, Eq | Eq, Eq => closed
  | _, _ => false
  end.

(** Try [n], [n+1], ... digits: the two [n]-digit decimals around
    [v/den] are the candidates. *)
Fixpoint shortest_from (fuel : nat) (n : Z) (closed : bool)
    (dp v lo hi den : Z) : Z * Z :=
  let k := dp - n in
  let q := if 0 <=? k then v / (den * 10 ^ k) else (v * 10 ^ (- k)) / den in
  let lo_ok := in_interval closed q k lo hi den in
  let hi_ok := in_interval closed (q + 1) k lo hi den in
  let upper := match dec_compare (2 * q + 1) k (2 * v) den with
               | Lt => true
               | _ => false
               end in
  match fuel with
  | O => (q, k)
  | S fuel' =>
      if lo_ok && hi_ok then (if upper then (q + 1, k) else (q, k))
      else if lo_ok then (q, k)
      else if hi_ok then (q + 1, k)
      else shortest_from fuel' (n + 1) closed dp v lo hi den
  end.

Fixpoint strip_zeros (fuel : nat) (c k : Z) : Z * Z :=
  match fuel with
  | O => (c, k)
  | S fuel' =>
      if (c mod 10 =? 0) && negb (c =? 0)
      then strip_zeros fuel' (c / 10) (k + 1)
      else (c, k)
  end.

(** Digits and decimal point of [m * 2^e]; everything is scaled by four
    so that the half-gaps to both neighbours are integers. *)
Definition shortest_digits (m : positive) (e : Z) : string * Z :=
  let boundary := (Zpos m =? 2 ^ (prec - 1)) && (3 - emax - prec <? e) in
  let s := 2 ^ Z.max (e - 2) 0 in
  let den := 2 ^ Z.max (2 - e) 0 in
  let v := 4 * Zpos m * s in
  let lo := (4 * Zpos m - (if boundary then 1 else 2)) * s in
  let hi := (4 * Zpos m + 2) * s in
  let dp := decpt_of v den in
  let '(c, k) := shortest_from 17 1 (Z.even (Zpos m)) dp v lo hi den in
  let '(c, k) := strip_zeros 20 c k in
  let ds := int_str c in
  (ds, k + Z.of_nat (String.length ds)).

Fixpoint zeros (n : nat) : string :=
  match n with
  | O => ""
  | S n' => "0" +:+ zeros n'
  end.

Definition exp_str (x : Z) : string :=
  (if x <? 0 then "-" else "+")
    +:+ (if Z.abs x <? 10 then "0" else "") +:+ int_str (Z.abs x).

Definition repr_finite (m : positive) (e : Z) : string :=
  let '(ds, dp) := shortest_digits m e in
  let len := Z.of_nat (String.length ds) in
  if (dp <=? -4) || (16 <? dp) then
    String.substring 0 1 ds
      +:+ (if 1 <? len
           then "." +:+ String.substring 1 (String.length ds - 1) ds
           else "")
      +:+ "e" +:+ exp_str (dp - 1)
  else if dp <=? 0 then "0." +:+ zeros (Z.to_nat (- dp)) +:+ ds
  else if len <=? dp then ds +:+ zeros (Z.to_nat (dp - len)) +:+ ".0"
  else String.substring 0 (Z.to_nat dp) ds +:+ "."
         +:+ String.substring (Z.to_nat dp) (Z.to_nat (len - dp)) ds.

Definition special_repr (f : spec_float) : string :=
  match f with
  | S754_nan => "nan"
  | S754_infinity s => if s then "-inf" else "inf"
  | S754_zero s => if s then "-0.0" else "0.0"
  | S754_finite s m e => (if s then "-" else "") +:+ repr_finite m e
  end.

(** [repr(f)], which is also [str(f)] *)
Definition float_repr (f : spec_float) : string :=
  match f with
  | S754_finite s m e => special_repr (binary_round prec emax s m e)
  | _ => special_repr f
  end.

(** [str(v)] *)
Definition py_str (v : value) : string :=
  match v with
  | VNone => "None"
  | VBool b => if b then "True" else "False"
  | VNum (NInt z) => int_str z
  | VNum (NFloat f) => float_repr f
  | VStr s => s
  end.

(** [fmt.format(a, b, ...)] with automatically numbered [{}] fields and the
    doubled-brace escapes; named and indexed fields are outside the
    fragment. *)
Fixpoint format (fmt : string) (args : list value) : result string :=
  match fmt with
  | "" => Ok ""
  | String "{" (String "}" rest) =>
      match args with
      | [] => Raise IndexError
      | a :: args' => r ← format rest args'; Ok (py_str a +:+ r)
      end
  | String "{" (String "{" rest) => r ← format rest args; Ok (String "{" r)
  | String "}" (String "}" rest) => r ← format rest args; Ok (String "}" r)
  | String "{" _ | String "}" _ => Raise ValueError
  | String c rest => r ← format rest args; Ok (String c r)
  end.

(** ** Calls: keyword dictionaries and parameter binding *)

(** A [dict] with string keys; iteration order plays no role below. *)
Abbreviation dict := (gmap string value).

(** The keywords of a call [f(k1=v1, ..., **kwargs)]: a keyword given
    twice is a [TypeError]. *)
Fixpoint call_kwargs (explicit : list (string * value)) (kwargs : dict)
    : result dict :=
  match explicit with
  | [] => Ok kwargs
  | (k, v) :: rest =>
      match kwargs !! k with
      | Some _ => Raise TypeError
      | None => d ← call_kwargs rest kwargs; Ok (<[k:=v]> d)
      end
  end.

(** Binding the arguments [pos], [kw] of a call to the parameters
    [(name, default)] of a signature that ends in [**kwargs]: the values
    of the named parameters in order, and the keywords left over. *)
Fixpoint bind_params (params : list (string * option value))
    (pos : list value) (kw : dict) : result (list value * dict) :=
  match params with
  | [] =>
      match pos with
      | [] => Ok ([], kw)
      | _ :: _ => Raise TypeError
      end
  | (name, dflt) :: params' =>
      match pos with
      | p :: pos' =>
          match kw !! name with
          | Some _ => Raise TypeError
          | None =>
              '(vs, kwargs) ← bind_params params' pos' kw; Ok (p :: vs, kwargs)
          end
      | [] =>
          match kw !! name, dflt with
          | Some v, _ =>
              '(vs, kwargs) ← bind_params params' [] (delete name kw);
              Ok (v :: vs, kwargs)
          | None, Some d =>
              '(vs, kwargs) ← bind_params params' [] kw; Ok (d :: vs, kwargs)
          | None, None => Raise TypeError
          end
      end
  end.

(** ** The object store *)

Definition ref := nat.

(** The classes of [defs.py], under the base class they import. *)
Inductive class : Type :=
  | DrawingParentElement
  | DrawingDef
  | DrawingDefSub
  | LinearGradient
  | RadialGradient
  | GradientStop
  | ClipPath
  | Mask
  | Filter
  | FilterItem
  | Marker.

#[global] Instance class_eq_dec : EqDecision class.
Proof. solve_decision. Defined.

(** An element: its class, the [TAG_NAME] assigned on the instance if
    any, the attribute mapping and the children. *)
Record object : Type := mkObject {
  ob_class : class;
  ob_TAG_NAME : option value;
  args : dict;
  children : list ref
}.

Abbreviation heap := (list object).

(** What the interpreter's [object.__new__] leaves behind. *)
Definition blank (c : class) : object :=
  {| ob_class := c; ob_TAG_NAME := None; args := ∅; children := [] |}.

(** Stateful code: a heap goes in; a value and a heap, or an exception,
    come out. *)
Definition M (A : Type) : Type := heap → result (A * heap).

#[global] Instance M_ret : MRet M := λ A a h, Ok (a, h).
#[global] Instance M_bind : MBind M := λ A B k m h,
  match m h with
  | Ok (a, h') => k a h'
  | Raise e => Raise e
  end.

Definition lift {A} (r : result A) : M A := λ h,
  match r with
  | Ok a => Ok (a, h)
  | Raise e => Raise e
  end.

Definition raise {A} (e : exn) : M A := λ _, Raise e.

Definition alloc (c : class) : M ref := λ h, Ok (length h, h ++ [blank c]).

Definition load (r : ref) : M object := λ h,
  match h !! r with
  | Some o => Ok (o, h)
  | None => Raise RuntimeError
  end.

Definition store (r : ref) (o : object) : M unit := λ h,
  match h !! r with
  | Some _ => Ok ((), <[r:=o]> h)
  | None => Raise RuntimeError
  end.

(** ** The class hierarchy *)

Definition base (c : class) : option class :=
  match c with
  | DrawingParentElement => None
  | DrawingDef | DrawingDefSub => Some DrawingParentElement
  | LinearGradient | RadialGradient | ClipPath | Mask | Filter | Marker =>
      Some DrawingDef
  | GradientStop | FilterItem => Some DrawingDefSub
  end.

Fixpoint mro_from (depth : nat) (c : class) : list class :=
  c :: match depth, base c with
       | S d, Some b => mro_from d b
       | _, _ => []
       end.

(** The method resolution order: the class, then its ancestors. *)
Definition mro (c : class) : list class := mro_from 2 c.

Definition issubclass (c d : class) : bool := bool_decide (d ∈ mro c).

(** Looking a name up on a class: the first class of the MRO that
    defines it. *)
Fixpoint first_defined {A} (own : class → option A) (cs : list class)
    : option A :=
  match cs with
  | [] => None
  | c :: cs' =>
      match own c with
      | Some a => Some a
      | None => first_defined own cs'
      end
  end.

Definition resolve {A} (own : class → option A) (c : class) : option A :=
  first_defined own (mro c).

Definition set_args (a : dict) (o : object) : object :=
  {| ob_class := ob_class o; ob_TAG_NAME := ob_TAG_NAME o;
     args := a; children := children o |}.

Definition set_children (cs : list ref) (o : object) : object :=
  {| ob_class := ob_class o; ob_TAG_NAME := ob_TAG_NAME o;
     args := args o; children := cs |}.

Definition set_TAG_NAME (t : value) (o : object) : object :=
  {| ob_class := ob_class o; ob_TAG_NAME := Some t;
     args := args o; children := children o |}.

(** ** The element base class *)

(** Modelled from the spec: [DrawingParentElement.__init__] is imported
    from [elements.py], outside this module.  The spec describes the
    base class as attribute storage whose keys are the constructor's
    keyword arguments, with an ordered child sequence that starts
    empty. *)
Definition DrawingParentElement___init__ (self : ref) (pos : list value)
    (kw : dict) : M unit :=
  '(_, args) ← lift (bind_params [] pos kw);
  o ← load self;
  store self (set_children [] (set_args args o)).

(** ** Class attributes *)

Definition own_TAG_NAME (c : class) : option string :=
  match c with
  | LinearGradient => Some "linearGradient"
  | RadialGradient => Some "radialGradient"
  | GradientStop => Some "stop"
  | ClipPath => Some "clipPath"
  | Mask => Some "mask"
  | Filter => Some "filter"
  | Marker => Some "marker"
  | DrawingParentElement | DrawingDef | DrawingDefSub | FilterItem => None
  end.

(** Modelled from the spec: the [has_content] flag of the base class in
    [elements.py], which decides whether an element may own children;
    parent elements may, unless a class says otherwise. *)
Definition DrawingParentElement_has_content : bool := true.

(** [has_content = False] on [GradientStop]. *)
Definition own_has_content (c : class) : option bool :=
  match c with
  | DrawingParentElement => Some DrawingParentElement_has_content
  | GradientStop => Some false
  | _ => None
  end.

(** [self.TAG_NAME]: the instance's own attribute, else the class's. *)
Definition TAG_NAME (o : object) : option value :=
  match ob_TAG_NAME o with
  | Some t => Some t
  | None => VStr <$> resolve own_TAG_NAME (ob_class o)
  end.

(** [self.has_content] *)
Definition has_content (o : object) : option bool :=
  resolve own_has_content (ob_class o).

(** Modelled from the spec: [DrawingParentElement.append] of
    [elements.py] adds the child at the end of the child sequence and
    rejects children on elements without content. *)
Definition DrawingParentElement_append (self child : ref) : M unit :=
  o ← load self;
  match has_content o with
  | Some true => store self (set_children (children o ++ [child]) o)
  | Some false => raise RuntimeError
  | None => raise AttributeError
  end.

(** ** DrawingDef *)

Definition DrawingDef_get_svg_defs (self : ref) : list ref := [self].

(** ** The gradients' vertical shift *)

(** Both gradient constructors open with the same three lines. *)
Definition y_shift (gradientUnits : value) : value :=
  let y_shift := VInt 0 in
  if py_ne gradientUnits (VStr "userSpaceOnUse") then VInt 1 else y_shift.

(** ** LinearGradient *)

Definition LinearGradient___init___params : list (string * option value) :=
  [("x1", None); ("y1", None); ("x2", None); ("y2", None);
   ("gradientUnits", Some (VStr "userSpaceOnUse"))].

(** [super()] is [DrawingDef], which inherits its [__init__] from
    [DrawingParentElement]. *)
Definition LinearGradient___init__ (self : ref) (pos : list value)
    (kw : dict) : M unit :=
  '(params, kwargs) ← lift (bind_params LinearGradient___init___params pos kw);
  match params with
  | [x1; y1; x2; y2; gradientUnits] =>
      let y_shift := y_shift gradientUnits in
      y1 ← lift (except_TypeError (VNum <$> py_sub y_shift y1) (Ok y1));
      y2 ← lift (except_TypeError (VNum <$> py_sub y_shift y2) (Ok y2));
      kw' ← lift (call_kwargs [("x1", x1); ("y1", y1); ("x2", x2); ("y2", y2);
                               ("gradientUnits", gradientUnits)] kwargs);
      DrawingParentElement___init__ self [] kw'
  | _ => raise TypeError
  end.

(** ** RadialGradient *)

Definition RadialGradient___init___params : list (string * option value) :=
  [("cx", None); ("cy", None); ("r", None);
   ("gradientUnits", Some (VStr "userSpaceOnUse")); ("fy", Some VNone)].

Definition RadialGradient___init__ (self : ref) (pos : list value)
    (kw : dict) : M unit :=
  '(params, kwargs) ← lift (bind_params RadialGradient___init___params pos kw);
  match params with
  | [cx; cy; r; gradientUnits; fy] =>
      let y_shift := y_shift gradientUnits in
      cy ← lift (except_TypeError (VNum <$> py_sub y_shift cy) (Ok cy));
      fy ← lift (except_TypeError (VNum <$> py_sub y_shift fy) (Ok fy));
      kw' ← lift (call_kwargs [("cx", cx); ("cy", cy); ("r", r);
                               ("gradientUnits", gradientUnits); ("fy", fy)]
                              kwargs);
      DrawingParentElement___init__ self [] kw'
  | _ => raise TypeError
  end.

(** ** FilterItem *)

Definition FilterItem___init___params : list (string * option value) :=
  [("tag_name", None)].

Definition FilterItem___init__ (self : ref) (pos : list value) (kw : dict)
    : M unit :=
  '(params, args) ← lift (bind_params FilterItem___init___params pos kw);
  match params with
  | [tag_name] =>
      DrawingParentElement___init__ self [] args;;
      o ← load self;
      store self (set_TAG_NAME tag_name o)
  | _ => raise TypeError
  end.

(** ** Marker *)

Definition Marker___init___params : list (string * option value) :=
  [("minx", None); ("miny", None); ("maxx", None); ("maxy", None);
   ("scale", Some (VInt 1)); ("orient", Some (VStr "auto"))].

(** [width if scale == 1 else float(width) * scale] *)
Definition marker_size (width : number) (scale : value) : result number :=
  if py_eq scale (VInt 1) then Ok width
  else f ← py_float width; py_mul_float f scale.

Definition Marker___init__ (self : ref) (pos : list value) (kw : dict)
    : M unit :=
  '(params, kwargs) ← lift (bind_params Marker___init___params pos kw);
  match params with
  | [minx; miny; maxx; maxy; scale; orient] =>
      width ← lift (py_sub maxx minx);
      height ← lift (py_sub maxy miny);
      markerWidth ← lift (marker_size width scale);
      markerHeight ← lift (marker_size height scale);
      neg_maxy ← lift (py_neg maxy);
      viewBox ← lift (format "{} {} {} {}"
                        [minx; VNum neg_maxy; VNum width; VNum height]);
      let kwargs :=
        kwargs ∪ <["orient" := orient]>
                   (<["viewBox" := VStr viewBox]>
                      (<["markerHeight" := VNum markerHeight]>
                         (<["markerWidth" := VNum markerWidth]> ∅))) in
      DrawingParentElement___init__ self [] kwargs
  | _ => raise TypeError
  end.

(** ** Instantiation *)

Definition own___init__ (c : class)
    : option (ref → list value → dict → M unit) :=
  match c with
  | DrawingParentElement => Some DrawingParentElement___init__
  | LinearGradient => Some LinearGradient___init__
  | RadialGradient => Some RadialGradient___init__
  | FilterItem => Some FilterItem___init__
  | Marker => Some Marker___init__
  | DrawingDef | DrawingDefSub | GradientStop | ClipPath | Mask | Filter =>
      None
  end.

(** [c(...)]: a blank instance of [c], initialised by the [__init__]
    found along the MRO. *)
Definition new (c : class) (pos : list value) (kw : dict) : M ref :=
  self ← alloc c;
  match resolve own___init__ c with
  | Some init => init self pos kw
  | None => raise AttributeError
  end;;
  mret self.

(** ** add_stop *)

Definition add_stop_params : list (string * option value) :=
  [("offset", None); ("color", None); ("opacity", Some VNone)].

Definition LinearGradient_add_stop (self : ref) (pos : list value)
    (kw : dict) : M (option ref) :=
  '(params, kwargs) ← lift (bind_params add_stop_params pos kw);
  match params with
  | [offset; color; opacity] =>
      kw' ← lift (call_kwargs [("offset", offset); ("stop_color", color);
                               ("stop_opacity", opacity)] kwargs);
      stop ← new GradientStop [] kw';
      DrawingParentElement_append self stop;;
      mret (Some stop)
  | _ => raise TypeError
  end.

Definition RadialGradient_add_stop (self : ref) (pos : list value)
    (kw : dict) : M (option ref) :=
  '(params, kwargs) ← lift (bind_params add_stop_params pos kw);
  match params with
  | [offset; color; opacity] =>
      kw' ← lift (call_kwargs [("offset", offset); ("stop_color", color);
                               ("stop_opacity", opacity)] kwargs);
      stop ← new GradientStop [] kw';
      DrawingParentElement_append self stop;;
      mret None
  | _ => raise TypeError
  end.

(** ** Method calls *)

Definition own_add_stop (c : class)
    : option (ref → list value → dict → M (option ref)) :=
  match c with
  | LinearGradient => Some LinearGradient_add_stop
  | RadialGradient => Some RadialGradient_add_stop
  | _ => None
  end.

Definition own_append (c : class) : option (ref → ref → M unit) :=
  match c with
  | DrawingParentElement => Some DrawingParentElement_append
  | _ => None
  end.

Definition own_get_svg_defs (c : class) : option (ref → list ref) :=
  match c with
  | DrawingDef => Some DrawingDef_get_svg_defs
  | _ => None
  end.

(** [self.name(...)]: the method is looked up on the class of [self]. *)
Definition call_method {A B} (own : class → option (ref → A))
    (run : A → M B) (self : ref) : M B :=
  o ← load self;
  match resolve own (ob_class o) with
  | Some method => run (method self)
  | None => raise AttributeError
  end.

(** [self.add_stop(...)] *)
Definition add_stop (self : ref) (pos : list value) (kw : dict)
    : M (option ref) :=
  call_method own_add_stop (λ m, m pos kw) self.

(** [self.append(child)] *)
Definition append (self child : ref) : M unit :=
  call_method own_append (λ m, m child) self.

(** [self.get_svg_defs()]; only [DrawingDef] defines it in this module,
    what the classes outside [DrawingDef] inherit from [elements.py] is
    not part of the model. *)
Definition get_svg_defs (self : ref) : M (list ref) :=
  call_method own_get_svg_defs mret self.

(** ** Predicates of the statements *)


(** The children of every element are allocated. *)
Definition allocated_children (h : heap) : Prop :=
  ∀ r o c, h !! r = Some o → c ∈ children o → (c < length h)%nat.

(** No element is a child twice, of one parent or of two. *)
Definition single_parent (h : heap) : Prop :=
  ∀ r1 r2 o1 o2 i1 i2 c,
    h !! r1 = Some o1 → h !! r2 = Some o2 →
    children o1 !! i1 = Some c → children o2 !! i2 = Some c →
    r1 = r2 ∧ i1 = i2.

(** * Properties *)

(** ** Printing

    A few values of [repr] on floats, as CPython prints them: [0.1],
    [20.0], [1e16], [0.00001], the largest float below one third, and
    the smallest positive float. *)

Example float_repr_tenth :
  float_repr (S754_finite false 7205759403792794 (-56)) = "0.1".
Proof. vm_compute. reflexivity. Qed.

Example float_repr_twenty :
  float_repr (S754_finite false 5629499534213120 (-48)) = "20.0".
Proof. vm_compute. reflexivity. Qed.

Example float_repr_1e16 :
  float_repr (S754_finite false 5000000000000000 1) = "1e+16".
Proof. vm_compute. reflexivity. Qed.

Example float_repr_1e_5 :
  float_repr (S754_finite true 5902958103587057 (-69)) = "-1e-05".
Proof. vm_compute. reflexivity. Qed.

Example float_repr_third :
  float_repr (S754_finite false 6004799503160661 (-54)) = "0.3333333333333333".
Proof. vm_compute. reflexivity. Qed.

Example float_repr_denormal :
  float_repr (S754_finite false 1 (-1074)) = "5e-324".
Proof. vm_compute. reflexivity. Qed.

Example format_mixed :
  format "{} {} {} {}"
    [VBool true; VNone; VFloat (S754_zero true); VStr "{}"]
  = Ok "True None -0.0 {}".
Proof. vm_compute. reflexivity. Qed.

(** ** The monads *)

Lemma M_bind_ok {A B} (m : M A) (k : A → M B) (h h' : heap) (a : A) :
  m h = Ok (a, h') → (m ≫= k) h = k a h'.
Proof. intros Hm. unfold mbind, M_bind. by rewrite Hm. Qed.

Lemma lift_ok {A B} (r : result A) (k : A → M B) (h : heap) (a : A) :
  r = Ok a → (lift r ≫= k) h = k a h.
Proof. intros ->. done. Qed.

Lemma alloc_spec (c : class) (h : heap) :
  alloc c h = Ok (length h, h ++ [blank c]).
Proof. done. Qed.

Lemma lookup_fresh (h : heap) (o : object) : (h ++ [o]) !! length h = Some o.
Proof. by rewrite lookup_app_r, Nat.sub_diag. Qed.

Lemma insert_fresh (h : heap) (o o' : object) :
  <[length h := o']> (h ++ [o]) = h ++ [o'].
Proof.
  rewrite insert_app_r_alt, Nat.sub_diag by done. done.
Qed.

Lemma load_fresh (h : heap) (o : object) :
  load (length h) (h ++ [o]) = Ok (o, h ++ [o]).
Proof. unfold load. by rewrite lookup_fresh. Qed.

Lemma store_fresh (h : heap) (o o' : object) :
  store (length h) o' (h ++ [o]) = Ok ((), h ++ [o']).
Proof. unfold store. by rewrite lookup_fresh, insert_fresh. Qed.

(** ** Parameter binding *)

(** The keywords left over are those of the call that name no
    parameter. *)
Lemma bind_params_lookup ps pos kw vs (kwargs : dict) :
  bind_params ps pos kw = Ok (vs, kwargs) →
  ∀ k, kwargs !! k = if decide (k ∈ ps.*1) then None else kw !! k.
Proof.
  revert pos kw vs kwargs.
  induction ps as [|[name dflt] ps IH]; intros pos kw vs kwargs Hb k; simpl in Hb.
  - destruct pos; [|done]. injection Hb as <- <-.
    rewrite decide_False; [done|]. apply not_elem_of_nil.
  - assert (Hstep : ∀ pos' kw' vs',
      bind_params ps pos' kw' = Ok (vs', kwargs) →
      kw' !! name = None → (k ≠ name → kw' !! k = kw !! k) →
      kwargs !! k = if decide (k ∈ ((name, dflt) :: ps).*1) then None
                    else kw !! k).
    { intros pos' kw' vs' Hrec Hname Hk.
      rewrite (IH _ _ _ _ Hrec k). rewrite fmap_cons. simpl.
      destruct (decide (k ∈ ps.*1)) as [Hin|Hin];
        destruct (decide (k ∈ name :: ps.*1)) as [Hin'|Hin']; [done| | |].
      - destruct Hin'. by apply list_elem_of_further.
      - apply elem_of_cons in Hin' as [->|?]; done.
      - apply Hk. intros ->. destruct Hin'. apply list_elem_of_here. }
    destruct pos as [|p pos].
    + destruct (kw !! name) as [v|] eqn:Hname.
      * destruct (bind_params ps [] (delete name kw)) as [[vs' kwargs']|] eqn:Hrec;
          [|done].
        simpl in Hb. injection Hb as <- <-.
        eapply (Hstep _ _ _ Hrec); [apply lookup_delete_eq|].
        intros Hne. by apply lookup_delete_ne.
      * destruct dflt as [d|]; [|done].
        destruct (bind_params ps [] kw) as [[vs' kwargs']|] eqn:Hrec; [|done].
        simpl in Hb. injection Hb as <- <-. by eapply (Hstep _ _ _ Hrec).
    + destruct (kw !! name) as [v|] eqn:Hname; [done|].
      destruct (bind_params ps pos kw) as [[vs' kwargs']|] eqn:Hrec; [|done].
      simpl in Hb. injection Hb as <- <-. by eapply (Hstep _ _ _ Hrec).
Qed.

Lemma bind_params_fresh ps pos kw vs (kwargs : dict) (k : string) :
  bind_params ps pos kw = Ok (vs, kwargs) → k ∈ ps.*1 → kwargs !! k = None.
Proof.
  intros Hb Hin. rewrite (bind_params_lookup _ _ _ _ _ Hb). by rewrite decide_True.
Qed.

Lemma bind_params_extra ps pos kw vs (kwargs : dict) (k : string) :
  bind_params ps pos kw = Ok (vs, kwargs) → k ∉ ps.*1 →
  kwargs !! k = kw !! k.
Proof.
  intros Hb Hin. rewrite (bind_params_lookup _ _ _ _ _ Hb). by rewrite decide_False.
Qed.

(** Explicit keywords that [kwargs] does not repeat are all accepted. *)
Lemma call_kwargs_ok explicit (kwargs : dict) :
  (∀ k, k ∈ explicit.*1 → kwargs !! k = None) →
  call_kwargs explicit kwargs
  = Ok (foldr (λ kv d, <[kv.1 := kv.2]> d) kwargs explicit).
Proof.
  induction explicit as [|[k v] explicit IH]; intros Hfresh; simpl; [done|].
  rewrite (Hfresh k) by apply list_elem_of_here.
  rewrite IH; [done|]. intros k' Hin. apply Hfresh. by apply list_elem_of_further.
Qed.

(** ** The base constructor on a fresh instance *)

Lemma base_init_fresh (h : heap) (o : object) (a : dict) :
  DrawingParentElement___init__ (length h) [] a (h ++ [o])
  = Ok ((), h ++ [set_children [] (set_args a o)]).
Proof.
  unfold DrawingParentElement___init__. simpl bind_params.
  rewrite (lift_ok _ _ _ ([], a)) by done.
  rewrite (M_bind_ok _ _ _ _ _ (load_fresh h o)).
  apply store_fresh.
Qed.

(** Static resolution agrees with the MRO: [super().__init__] of every
    class that overrides the constructor is the base class's, and no
    class overrides [append]. *)
Lemma super_init_resolution (c : class) :
  c ∈ [LinearGradient; RadialGradient; FilterItem; Marker] →
  first_defined own___init__ (tail (mro c)) = Some DrawingParentElement___init__.
Proof.
  intros Hc. repeat (apply elem_of_cons in Hc as [->|Hc]; [done|]).
  by apply elem_of_nil in Hc.
Qed.

Lemma append_resolution (c : class) :
  resolve own_append c = Some DrawingParentElement_append.
Proof. by destruct c. Qed.

(** ** The vertical shift *)

Lemma float_of_Z_0 : float_of_Z 0 = Ok (S754_zero false).
Proof. reflexivity. Qed.

Lemma float_of_Z_1 : float_of_Z 1 = Ok (S754_finite false 4503599627370496 (-52)).
Proof. reflexivity. Qed.

Lemma y_shift_userSpaceOnUse : y_shift (VStr "userSpaceOnUse") = VInt 0.
Proof. reflexivity. Qed.

Lemma y_shift_other (s : string) :
  s ≠ "userSpaceOnUse" → y_shift (VStr s) = VInt 1.
Proof.
  intros Hs. unfold y_shift, py_ne, py_eq.
  by rewrite (proj2 (String.eqb_neq _ _) Hs).
Qed.

Lemma y_shift_cases (gradientUnits : value) :
  y_shift gradientUnits = VInt 0 ∨ y_shift gradientUnits = VInt 1.
Proof. unfold y_shift. destruct (py_ne _ _); auto. Qed.

(** The guarded subtraction [try: y = y_shift - y / except TypeError:
    pass], case by case on the coordinate. *)
Lemma try_sub_int (k z : Z) (y : value) :
  as_number y = Some (NInt z) →
  except_TypeError (VNum <$> py_sub (VInt k) y) (Ok y) = Ok (VInt (k - z)).
Proof. intros Hy. unfold py_sub. simpl. by rewrite Hy. Qed.

Lemma try_sub_float (k : Z) (fk f : spec_float) (y : value) :
  float_of_Z k = Ok fk → as_number y = Some (NFloat f) →
  except_TypeError (VNum <$> py_sub (VInt k) y) (Ok y)
  = Ok (VFloat (SFsub prec emax fk f)).
Proof. intros Hk Hy. unfold py_sub. simpl. by rewrite Hy, Hk. Qed.

Lemma try_sub_non_numeric (k : Z) (y : value) :
  as_number y = None →
  except_TypeError (VNum <$> py_sub (VInt k) y) (Ok y) = Ok y.
Proof. intros Hy. unfold py_sub. simpl. by rewrite Hy. Qed.

Lemma try_sub_total (gradientUnits y : value) :
  ∃ y', except_TypeError (VNum <$> py_sub (y_shift gradientUnits) y) (Ok y)
        = Ok y'.
Proof.
  destruct (as_number y) as [[z|f]|] eqn:Hy.
  - destruct (y_shift_cases gradientUnits) as [-> | ->];
      eexists; by apply try_sub_int.
  - destruct (y_shift_cases gradientUnits) as [-> | ->]; eexists.
    + eapply try_sub_float; [apply float_of_Z_0 | done].
    + eapply try_sub_float; [apply float_of_Z_1 | done].
  - destruct (y_shift_cases gradientUnits) as [-> | ->];
      eexists; by apply try_sub_non_numeric.
Qed.

(** ** The gradient constructors *)

Ltac fresh_keyword Hbind :=
  intros ? ?; eapply bind_params_fresh; [exact Hbind|];
  simpl; set_solver.

(** What [LinearGradient(...)] builds, given how its arguments bind and
    what the two guarded subtractions leave. *)
Lemma new_LinearGradient pos kw x1 y1 x2 y2 gradientUnits (kwargs : dict)
    (h : heap) (y1' y2' : value) :
  bind_params LinearGradient___init___params pos kw
  = Ok ([x1; y1; x2; y2; gradientUnits], kwargs) →
  except_TypeError (VNum <$> py_sub (y_shift gradientUnits) y1) (Ok y1) = Ok y1' →
  except_TypeError (VNum <$> py_sub (y_shift gradientUnits) y2) (Ok y2) = Ok y2' →
  new LinearGradient pos kw h
  = Ok (length h,
        h ++ [mkObject LinearGradient None
                (<["x1" := x1]> (<["y1" := y1']> (<["x2" := x2]>
                   (<["y2" := y2']> (<["gradientUnits" := gradientUnits]> kwargs)))))
                []]).
Proof.
  intros Hbind Hy1 Hy2. unfold new.
  rewrite (M_bind_ok _ _ _ _ _ (alloc_spec LinearGradient h)).
  change (resolve own___init__ LinearGradient) with (Some LinearGradient___init__).
  erewrite M_bind_ok; [done|].
  unfold LinearGradient___init__.
  rewrite (lift_ok _ _ _ _ Hbind). cbv beta iota.
  rewrite (lift_ok _ _ _ _ Hy1), (lift_ok _ _ _ _ Hy2).
  erewrite lift_ok; [apply base_init_fresh|].
  rewrite call_kwargs_ok; [done|]. fresh_keyword Hbind.
Qed.

Lemma new_RadialGradient pos kw cx cy r gradientUnits fy (kwargs : dict)
    (h : heap) (cy' fy' : value) :
  bind_params RadialGradient___init___params pos kw
  = Ok ([cx; cy; r; gradientUnits; fy], kwargs) →
  except_TypeError (VNum <$> py_sub (y_shift gradientUnits) cy) (Ok cy) = Ok cy' →
  except_TypeError (VNum <$> py_sub (y_shift gradientUnits) fy) (Ok fy) = Ok fy' →
  new RadialGradient pos kw h
  = Ok (length h,
        h ++ [mkObject RadialGradient None
                (<["cx" := cx]> (<["cy" := cy']> (<["r" := r]>
                   (<["gradientUnits" := gradientUnits]> (<["fy" := fy']> kwargs)))))
                []]).
Proof.
  intros Hbind Hcy Hfy. unfold new.
  rewrite (M_bind_ok _ _ _ _ _ (alloc_spec RadialGradient h)).
  change (resolve own___init__ RadialGradient) with (Some RadialGradient___init__).
  erewrite M_bind_ok; [done|].
  unfold RadialGradient___init__.
  rewrite (lift_ok _ _ _ _ Hbind). cbv beta iota.
  rewrite (lift_ok _ _ _ _ Hcy), (lift_ok _ _ _ _ Hfy).
  erewrite lift_ok; [apply base_init_fresh|].
  rewrite call_kwargs_ok; [done|]. fresh_keyword Hbind.
Qed.

Lemma SFone_eq : SFone prec emax = S754_finite false 4503599627370496 (-52).
Proof. reflexivity. Qed.

(** A numeric coordinate under the guard: the subtraction goes through
    and its result replaces the coordinate. *)
Lemma shift_numeric (gradientUnits y : value) (k : Z) (fk : spec_float)
    (a : number) :
  y_shift gradientUnits = VInt k → float_of_Z k = Ok fk →
  as_number y = Some a →
  ∃ m, py_sub (VInt k) y = Ok m ∧
       except_TypeError (VNum <$> py_sub (y_shift gradientUnits) y) (Ok y)
       = Ok (VNum m) ∧
       match a with
       | NInt z => m = NInt (k - z)
       | NFloat f => m = NFloat (SFsub prec emax fk f)
       end.
Proof.
  intros -> Hk Hy. destruct a as [z|f].
  - exists (NInt (k - z)). split_and!; [|by apply try_sub_int|done].
    unfold py_sub. simpl. by rewrite Hy.
  - exists (NFloat (SFsub prec emax fk f)).
    split_and!; [|by eapply try_sub_float|done].
    unfold py_sub. simpl. by rewrite Hy, Hk.
Qed.

Lemma shift_non_numeric (gradientUnits y : value) :
  as_number y = None →
  except_TypeError (VNum <$> py_sub (y_shift gradientUnits) y) (Ok y) = Ok y.
Proof.
  intros Hy.
  destruct (y_shift_cases gradientUnits) as [-> | ->];
    by apply try_sub_non_numeric.
Qed.

(** The stored coordinate, read back from what the guard left. *)
Lemma stored_numeric (gradientUnits y y' : value) (k : Z) (fk : spec_float)
    (stored : option value) :
  y_shift gradientUnits = VInt k → float_of_Z k = Ok fk →
  except_TypeError (VNum <$> py_sub (y_shift gradientUnits) y) (Ok y) = Ok y' →
  stored = Some y' →
  ∀ a, as_number y = Some a →
    ∃ m, py_sub (VInt k) y = Ok m ∧ stored = Some (VNum m) ∧
         match a with
         | NInt z => m = NInt (k - z)
         | NFloat f => m = NFloat (SFsub prec emax fk f)
         end.
Proof.
  intros Hshift Hk Hy' -> a Ha.
  destruct (shift_numeric _ _ _ _ _ Hshift Hk Ha) as (m & Hm & Hguard & Hform).
  exists m. split_and!; [done| |done]. congruence.
Qed.

(** ** Claims on the gradients *)

Ltac stored_attr := simpl; by simplify_map_eq.




(** C2: with [gradientUnits] any string other than ["userSpaceOnUse"],
    every numeric y-coordinate [v] of a LinearGradient ([y1], [y2]) or
    RadialGradient ([cy], [fy]) is stored as [1 - v]: the int [1 - z]
    for an int [z], the float [1.0 - f] for a float [f]. *)
Theorem other_units_y_flipped :
  (∀ pos kw x1 y1 x2 y2 (gradientUnits : string) (kwargs : dict) (h : heap),
     gradientUnits ≠ "userSpaceOnUse" →
     bind_params LinearGradient___init___params pos kw
     = Ok ([x1; y1; x2; y2; VStr gradientUnits], kwargs) →
     ∃ o, new LinearGradient pos kw h = Ok (length h, h ++ [o]) ∧
       (∀ a, as_number y1 = Some a →
          ∃ m, py_sub (VInt 1) y1 = Ok m ∧ args o !! "y1" = Some (VNum m) ∧
               match a with
               | NInt z => m = NInt (1 - z)
               | NFloat f => m = NFloat (SFsub prec emax (SFone prec emax) f)
               end) ∧
       (∀ a, as_number y2 = Some a →
          ∃ m, py_sub (VInt 1) y2 = Ok m ∧ args o !! "y2" = Some (VNum m) ∧
               match a with
               | NInt z => m = NInt (1 - z)
               | NFloat f => m = NFloat (SFsub prec emax (SFone prec emax) f)
               end)) ∧
  (∀ pos kw cx cy r (gradientUnits : string) fy (kwargs : dict) (h : heap),
     gradientUnits ≠ "userSpaceOnUse" →
     bind_params RadialGradient___init___params pos kw
     = Ok ([cx; cy; r; VStr gradientUnits; fy], kwargs) →
     ∃ o, new RadialGradient pos kw h = Ok (length h, h ++ [o]) ∧
       (∀ a, as_number cy = Some a →
          ∃ m, py_sub (VInt 1) cy = Ok m ∧ args o !! "cy" = Some (VNum m) ∧
               match a with
               | NInt z => m = NInt (1 - z)
               | NFloat f => m = NFloat (SFsub prec emax (SFone prec emax) f)
               end) ∧
       (∀ a, as_number fy = Some a →
          ∃ m, py_sub (VInt 1) fy = Ok m ∧ args o !! "fy" = Some (VNum m) ∧
               match a with
               | NInt z => m = NInt (1 - z)
               | NFloat f => m = NFloat (SFsub prec emax (SFone prec emax) f)
               end)).
Proof.
  rewrite SFone_eq. split.
  - intros pos kw x1 y1 x2 y2 gradientUnits kwargs h Hunits Hbind.
    destruct (try_sub_total (VStr gradientUnits) y1) as [y1' Hy1].
    destruct (try_sub_total (VStr gradientUnits) y2) as [y2' Hy2].
    eexists. split; [by eapply new_LinearGradient|].
    split; eapply stored_numeric;
      eauto using y_shift_other, float_of_Z_1; stored_attr.
  - intros pos kw cx cy r gradientUnits fy kwargs h Hunits Hbind.
    destruct (try_sub_total (VStr gradientUnits) cy) as [cy' Hcy].
    destruct (try_sub_total (VStr gradientUnits) fy) as [fy' Hfy].
    eexists. split; [by eapply new_RadialGradient|].
    split; eapply stored_numeric;
      eauto using y_shift_other, float_of_Z_1; stored_attr.
Qed.

(** [LinearGradient(0, 0, 1, 1, gradientUnits="objectBoundingBox")]
    stores [y1 = 1] and [y2 = 0]. *)
Lemma other_units_y_flipped_witness :
  ∃ o, new LinearGradient [VInt 0; VInt 0; VInt 1; VInt 1]
         {[ "gradientUnits" := VStr "objectBoundingBox" ]} []
       = Ok (0%nat, [o]) ∧
       args o !! "y1" = Some (VInt 1) ∧ args o !! "y2" = Some (VInt 0).
Proof.
  assert (Hunits : "objectBoundingBox" ≠ "userSpaceOnUse") by discriminate.
  assert (Hbind : bind_params LinearGradient___init___params
            [VInt 0; VInt 0; VInt 1; VInt 1]
            ({[ "gradientUnits" := VStr "objectBoundingBox" ]} : dict)
          = Ok ([VInt 0; VInt 0; VInt 1; VInt 1; VStr "objectBoundingBox"], ∅))
    by (vm_compute; reflexivity).
  destruct (proj1 other_units_y_flipped _ _ _ _ _ _ _ _ [] Hunits Hbind)
    as (o & Hnew & Hy1 & Hy2).
  exists o. split; [exact Hnew|].
  destruct (Hy1 _ eq_refl) as (m1 & _ & -> & ->).
  destruct (Hy2 _ eq_refl) as (m2 & _ & -> & ->).
  split; reflexivity.
Defined.

(** C3: a coordinate that is not a number ([None], a string) is stored
    as it was given, whatever [gradientUnits] is: the [TypeError] of the
    subtraction is caught and construction goes on.  In particular [fy]
    left out of a RadialGradient call is stored as [None]. *)
Theorem non_numeric_coordinate_unchanged :
  (∀ pos kw x1 y1 x2 y2 gradientUnits (kwargs : dict) (h : heap),
     bind_params LinearGradient___init___params pos kw
     = Ok ([x1; y1; x2; y2; gradientUnits], kwargs) →
     ∃ o, new LinearGradient pos kw h = Ok (length h, h ++ [o]) ∧
       (as_number x1 = None → args o !! "x1" = Some x1) ∧
       (as_number y1 = None → args o !! "y1" = Some y1) ∧
       (as_number x2 = None → args o !! "x2" = Some x2) ∧
       (as_number y2 = None → args o !! "y2" = Some y2)) ∧
  (∀ pos kw cx cy r gradientUnits fy (kwargs : dict) (h : heap),
     bind_params RadialGradient___init___params pos kw
     = Ok ([cx; cy; r; gradientUnits; fy], kwargs) →
     ∃ o, new RadialGradient pos kw h = Ok (length h, h ++ [o]) ∧
       (as_number cx = None → args o !! "cx" = Some cx) ∧
       (as_number cy = None → args o !! "cy" = Some cy) ∧
       (as_number r = None → args o !! "r" = Some r) ∧
       (as_number fy = None → args o !! "fy" = Some fy)) ∧
  (∀ cx cy r gradientUnits (h : heap),
     ∃ o, new RadialGradient [cx; cy; r; gradientUnits] ∅ h
          = Ok (length h, h ++ [o]) ∧
          args o !! "fy" = Some VNone).
Proof.
  split_and!.
  - intros pos kw x1 y1 x2 y2 gradientUnits kwargs h Hbind.
    destruct (try_sub_total gradientUnits y1) as [y1' Hy1].
    destruct (try_sub_total gradientUnits y2) as [y2' Hy2].
    eexists. split; [by eapply new_LinearGradient|].
    split_and!; intros Hnon; try stored_attr.
    + rewrite shift_non_numeric in Hy1 by done. injection Hy1 as <-. stored_attr.
    + rewrite shift_non_numeric in Hy2 by done. injection Hy2 as <-. stored_attr.
  - intros pos kw cx cy r gradientUnits fy kwargs h Hbind.
    destruct (try_sub_total gradientUnits cy) as [cy' Hcy].
    destruct (try_sub_total gradientUnits fy) as [fy' Hfy].
    eexists. split; [by eapply new_RadialGradient|].
    split_and!; intros Hnon; try stored_attr.
    + rewrite shift_non_numeric in Hcy by done. injection Hcy as <-. stored_attr.
    + rewrite shift_non_numeric in Hfy by done. injection Hfy as <-. stored_attr.
  - intros cx cy r gradientUnits h.
    destruct (try_sub_total gradientUnits cy) as [cy' Hcy].
    eexists. split.
    + eapply (new_RadialGradient _ _ cx cy r gradientUnits VNone ∅);
        [done|exact Hcy|by apply shift_non_numeric].
    + stored_attr.
Qed.

(** [RadialGradient(0, "50%", 1, fy=None, gradientUnits="objectBoundingBox")]
    keeps the string and the [None]. *)
Lemma non_numeric_coordinate_unchanged_witness :
  ∃ o, new RadialGradient [VInt 0; VStr "50%"; VInt 1]
         {[ "gradientUnits" := VStr "objectBoundingBox"; "fy" := VNone ]} []
       = Ok (0%nat, [o]) ∧
       args o !! "cy" = Some (VStr "50%") ∧ args o !! "fy" = Some VNone.
Proof.
  assert (Hbind : bind_params RadialGradient___init___params
            [VInt 0; VStr "50%"; VInt 1]
            ({[ "gradientUnits" := VStr "objectBoundingBox";
                "fy" := VNone ]} : dict)
          = Ok ([VInt 0; VStr "50%"; VInt 1; VStr "objectBoundingBox"; VNone], ∅))
    by (vm_compute; reflexivity).
  destruct (proj1 (proj2 non_numeric_coordinate_unchanged) _ _ _ _ _ _ _ _ []
              Hbind)
    as (o & Hnew & _ & Hcy & _ & Hfy).
  exists o. split; [exact Hnew|].
  split; [exact (Hcy eq_refl) | exact (Hfy eq_refl)].
Defined.

(** C10: the shift touches the y-coordinates only.  Whatever
    [gradientUnits] is, a LinearGradient stores [x1], [x2] and a
    RadialGradient stores [cx], [r] exactly as supplied, and so are
    [gradientUnits] itself and every extra keyword of the call. *)
Theorem gradient_frame :
  (∀ pos kw x1 y1 x2 y2 gradientUnits (kwargs : dict) (h : heap),
     bind_params LinearGradient___init___params pos kw
     = Ok ([x1; y1; x2; y2; gradientUnits], kwargs) →
     ∃ o, new LinearGradient pos kw h = Ok (length h, h ++ [o]) ∧
       args o !! "x1" = Some x1 ∧
       args o !! "x2" = Some x2 ∧
       args o !! "gradientUnits" = Some gradientUnits ∧
       (∀ k, k ∉ LinearGradient___init___params.*1 →
             args o !! k = kw !! k)) ∧
  (∀ pos kw cx cy r gradientUnits fy (kwargs : dict) (h : heap),
     bind_params RadialGradient___init___params pos kw
     = Ok ([cx; cy; r; gradientUnits; fy], kwargs) →
     ∃ o, new RadialGradient pos kw h = Ok (length h, h ++ [o]) ∧
       args o !! "cx" = Some cx ∧
       args o !! "r" = Some r ∧
       args o !! "gradientUnits" = Some gradientUnits ∧
       (∀ k, k ∉ RadialGradient___init___params.*1 →
             args o !! k = kw !! k)).
Proof.
  split.
  - intros pos kw x1 y1 x2 y2 gradientUnits kwargs h Hbind.
    destruct (try_sub_total gradientUnits y1) as [y1' Hy1].
    destruct (try_sub_total gradientUnits y2) as [y2' Hy2].
    eexists. split; [by eapply new_LinearGradient|].
    split_and!; try stored_attr.
    intros k Hk. rewrite <- (bind_params_extra _ _ _ _ _ _ Hbind Hk).
    simpl in *. rewrite !lookup_insert_ne; [done|set_solver..].
  - intros pos kw cx cy r gradientUnits fy kwargs h Hbind.
    destruct (try_sub_total gradientUnits cy) as [cy' Hcy].
    destruct (try_sub_total gradientUnits fy) as [fy' Hfy].
    eexists. split; [by eapply new_RadialGradient|].
    split_and!; try stored_attr.
    intros k Hk. rewrite <- (bind_params_extra _ _ _ _ _ _ Hbind Hk).
    simpl in *. rewrite !lookup_insert_ne; [done|set_solver..].
Qed.

(** [LinearGradient(3, 4, x2=5, y2=6, gradientUnits="objectBoundingBox",
    id="g")] keeps [x1 = 3], [x2 = 5] and [id = "g"]. *)
Lemma gradient_frame_witness :
  ∃ o, new LinearGradient [VInt 3; VInt 4]
         {[ "x2" := VInt 5; "y2" := VInt 6;
            "gradientUnits" := VStr "objectBoundingBox"; "id" := VStr "g" ]} []
       = Ok (0%nat, [o]) ∧
       args o !! "x1" = Some (VInt 3) ∧ args o !! "x2" = Some (VInt 5) ∧
       args o !! "id" = Some (VStr "g").
Proof.
  assert (Hbind : bind_params LinearGradient___init___params
            [VInt 3; VInt 4]
            ({[ "x2" := VInt 5; "y2" := VInt 6;
                "gradientUnits" := VStr "objectBoundingBox";
                "id" := VStr "g" ]} : dict)
          = Ok ([VInt 3; VInt 4; VInt 5; VInt 6; VStr "objectBoundingBox"],
                {[ "id" := VStr "g" ]}))
    by (vm_compute; reflexivity).
  destruct (proj1 gradient_frame _ _ _ _ _ _ _ _ [] Hbind)
    as (o & Hnew & Hx1 & Hx2 & _ & Hextra).
  exists o. split_and!; [exact Hnew|exact Hx1|exact Hx2|].
  rewrite (Hextra "id") by compute_done.
  vm_compute; reflexivity.
Defined.

(** ** Gradient stops *)

(** [GradientStop] has no constructor of its own: the inherited one runs. *)
Lemma new_GradientStop (a : dict) (h : heap) :
  new GradientStop [] a h
  = Ok (length h, h ++ [mkObject GradientStop None a []]).
Proof.
  unfold new. rewrite (M_bind_ok _ _ _ _ _ (alloc_spec GradientStop h)).
  change (resolve own___init__ GradientStop)
    with (Some DrawingParentElement___init__).
  erewrite M_bind_ok; [done|]. apply base_init_fresh.
Qed.

Lemma append_spec (h : heap) (self child : ref) (o : object) :
  h !! self = Some o → has_content o = Some true →
  DrawingParentElement_append self child h
  = Ok ((), <[self := set_children (children o ++ [child]) o]> h).
Proof.
  intros Hself Hcontent. unfold DrawingParentElement_append.
  erewrite M_bind_ok; [|unfold load; by rewrite Hself].
  rewrite Hcontent. unfold store. by rewrite Hself.
Qed.

(** The heap after [self] has received a freshly made child [s]. *)
Local Abbreviation with_child h self o s :=
  (<[self := set_children (children o ++ [length h]) o]> (h ++ [s])).

Lemma with_child_facts (h : heap) (self : ref) (o s : object) :
  h !! self = Some o →
  with_child h self o s !! length h = Some s ∧
  with_child h self o s !! self
  = Some (set_children (children o ++ [length h]) o) ∧
  length (with_child h self o s) = S (length h) ∧
  (∀ r o', r ≠ self → h !! r = Some o' → with_child h self o s !! r = Some o').
Proof.
  intros Hself. pose proof (lookup_lt_Some _ _ _ Hself) as Hlt.
  split_and!.
  - rewrite list_lookup_insert_ne by lia. apply lookup_fresh.
  - apply list_lookup_insert_eq. rewrite length_app. simpl. lia.
  - rewrite length_insert, length_app. simpl. lia.
  - intros r o' Hne Hr. rewrite list_lookup_insert_ne by done.
    by apply lookup_app_l_Some.
Qed.

Section add_stop_bodies.
Context (h : heap) (self : ref) (o : object).
Context (pos : list value) (kw kwargs : dict) (offset color opacity : value).
Hypothesis Hself : h !! self = Some o.
Hypothesis Hcontent : has_content o = Some true.
Hypothesis Hbind :
  bind_params add_stop_params pos kw = Ok ([offset; color; opacity], kwargs).
Hypothesis Hcolor : kwargs !! "stop_color" = None.
Hypothesis Hopacity : kwargs !! "stop_opacity" = None.

Local Abbreviation stop :=
  (mkObject GradientStop None
     (<["offset" := offset]> (<["stop_color" := color]>
        (<["stop_opacity" := opacity]> kwargs))) []).

Lemma add_stop_keywords :
  call_kwargs [("offset", offset); ("stop_color", color);
               ("stop_opacity", opacity)] kwargs
  = Ok (args stop).
Proof.
  rewrite call_kwargs_ok; [done|].
  intros k Hk. simpl in Hk.
  apply elem_of_cons in Hk as [->|Hk];
    [eapply bind_params_fresh; [exact Hbind|simpl; set_solver]|].
  apply elem_of_cons in Hk as [->|Hk]; [done|].
  apply elem_of_cons in Hk as [->|Hk]; [done|].
  by apply elem_of_nil in Hk.
Qed.

Lemma LinearGradient_add_stop_spec :
  LinearGradient_add_stop self pos kw h
  = Ok (Some (length h), with_child h self o stop).
Proof.
  unfold LinearGradient_add_stop.
  rewrite (lift_ok _ _ _ _ Hbind). cbv beta iota.
  rewrite (lift_ok _ _ _ _ add_stop_keywords).
  rewrite (M_bind_ok _ _ _ _ _ (new_GradientStop _ h)).
  erewrite M_bind_ok; [done|].
  apply append_spec; [by apply lookup_app_l_Some|done].
Qed.

Lemma RadialGradient_add_stop_spec :
  RadialGradient_add_stop self pos kw h
  = Ok (None, with_child h self o stop).
Proof.
  unfold RadialGradient_add_stop.
  rewrite (lift_ok _ _ _ _ Hbind). cbv beta iota.
  rewrite (lift_ok _ _ _ _ add_stop_keywords).
  rewrite (M_bind_ok _ _ _ _ _ (new_GradientStop _ h)).
  erewrite M_bind_ok; [done|].
  apply append_spec; [by apply lookup_app_l_Some|done].
Qed.
End add_stop_bodies.

Lemma call_method_resolved {A B} (own : class → option (ref → A))
    (run : A → M B) (h : heap) (self : ref) (o : object) (method : ref → A) :
  h !! self = Some o → resolve own (ob_class o) = Some method →
  call_method own run self h = run (method self) h.
Proof.
  intros Hself Hres. unfold call_method.
  erewrite M_bind_ok; [|unfold load; by rewrite Hself]. by rewrite Hres.
Qed.

(** C4: on a LinearGradient [g], [g.add_stop(offset, color)] with
    [opacity] left unset makes exactly one new element, a GradientStop
    with [offset], [stop_color=color] and [stop_opacity=None]; it becomes
    the last child of [g], nothing else changes, and the call returns
    it. *)
Theorem LinearGradient_add_stop_appends
    (h : heap) (g : ref) (o : object) (pos : list value) (kw : dict)
    (offset color : value) :
  h !! g = Some o → ob_class o = LinearGradient →
  bind_params add_stop_params pos kw = Ok ([offset; color; VNone], ∅) →
  ∃ (stop : ref) (h' : heap),
    add_stop g pos kw h = Ok (Some stop, h') ∧
    stop = length h ∧
    length h' = S (length h) ∧
    h' !! stop
    = Some (mkObject GradientStop None
              {[ "offset" := offset; "stop_color" := color;
                 "stop_opacity" := VNone ]} []) ∧
    h' !! g = Some (set_children (children o ++ [stop]) o) ∧
    (∀ r o', r ≠ g → h !! r = Some o' → h' !! r = Some o').
Proof.
  intros Hg Hclass Hbind.
  assert (Hcontent : has_content o = Some true)
    by (unfold has_content; by rewrite Hclass).
  eexists _, _. split.
  - unfold add_stop. erewrite call_method_resolved; [|done|by rewrite Hclass].
    by eapply LinearGradient_add_stop_spec.
  - split; [done|].
    destruct (with_child_facts h g o
                (mkObject GradientStop None
                   {[ "offset" := offset; "stop_color" := color;
                      "stop_opacity" := VNone ]} []) Hg)
      as (Hstop & Hself & Hlen & Hframe).
    by split_and!.
Qed.

(** [g.add_stop(offset=0.5, color="red")] on a gradient that already has
    a stop: the new stop is element 2 and the second child of [g]. *)
Lemma LinearGradient_add_stop_appends_witness :
  ∃ h',
    add_stop 0%nat []
      {[ "offset" := VFloat (S754_finite false 4503599627370496 (-53));
         "color" := VStr "red" ]}
      [mkObject LinearGradient None ∅ [1%nat]; mkObject GradientStop None ∅ []]
    = Ok (Some 2%nat, h') ∧
    h' !! 2%nat
    = Some (mkObject GradientStop None
              {[ "offset" := VFloat (S754_finite false 4503599627370496 (-53));
                 "stop_color" := VStr "red"; "stop_opacity" := VNone ]} []) ∧
    children <$> (h' !! 0%nat) = Some [1%nat; 2%nat].
Proof.
  assert (Hbind : bind_params add_stop_params []
            ({[ "offset" := VFloat (S754_finite false 4503599627370496 (-53));
                "color" := VStr "red" ]} : dict)
          = Ok ([VFloat (S754_finite false 4503599627370496 (-53));
                 VStr "red"; VNone], ∅))
    by (vm_compute; reflexivity).
  destruct (LinearGradient_add_stop_appends
              [mkObject LinearGradient None ∅ [1%nat];
               mkObject GradientStop None ∅ []]
              0%nat _ _ _ _ _ eq_refl eq_refl Hbind)
    as (stop & h' & Hcall & -> & _ & Hstop & Hg & _).
  exists h'. split_and!; [exact Hcall|exact Hstop|].
  exact (f_equal (fmap children) Hg).
Defined.

(** C5: on a RadialGradient [g], [g.add_stop(offset, color, opacity)]
    makes and appends the same GradientStop as [LinearGradient.add_stop]
    does (the two method bodies leave the same heap), and returns
    [None] where the other returns the stop. *)
Theorem RadialGradient_add_stop_returns_None
    (h : heap) (g : ref) (o : object) (pos : list value) (kw : dict)
    (offset color opacity : value) :
  h !! g = Some o → ob_class o = RadialGradient →
  bind_params add_stop_params pos kw = Ok ([offset; color; opacity], ∅) →
  ∃ (h' : heap),
    add_stop g pos kw h = Ok (None, h') ∧
    LinearGradient_add_stop g pos kw h = Ok (Some (length h), h') ∧
    length h' = S (length h) ∧
    h' !! length h
    = Some (mkObject GradientStop None
              {[ "offset" := offset; "stop_color" := color;
                 "stop_opacity" := opacity ]} []) ∧
    h' !! g = Some (set_children (children o ++ [length h]) o) ∧
    (∀ r o', r ≠ g → h !! r = Some o' → h' !! r = Some o').
Proof.
  intros Hg Hclass Hbind.
  assert (Hcontent : has_content o = Some true)
    by (unfold has_content; by rewrite Hclass).
  eexists. split; [|split].
  - unfold add_stop. erewrite call_method_resolved; [|done|by rewrite Hclass].
    by eapply RadialGradient_add_stop_spec.
  - by eapply LinearGradient_add_stop_spec.
  - destruct (with_child_facts h g o
                (mkObject GradientStop None
                   {[ "offset" := offset; "stop_color" := color;
                      "stop_opacity" := opacity ]} []) Hg)
      as (Hstop & Hself & Hlen & Hframe).
    by split_and!.
Qed.

(** [g.add_stop(0, "red", 1)] on a fresh RadialGradient. *)
Lemma RadialGradient_add_stop_returns_None_witness :
  ∃ h',
    add_stop 0%nat [VInt 0; VStr "red"; VInt 1] ∅
      [mkObject RadialGradient None ∅ []]
    = Ok (None, h') ∧
    h' !! 1%nat
    = Some (mkObject GradientStop None
              {[ "offset" := VInt 0; "stop_color" := VStr "red";
                 "stop_opacity" := VInt 1 ]} []) ∧
    children <$> (h' !! 0%nat) = Some [1%nat].
Proof.
  assert (Hbind : bind_params add_stop_params [VInt 0; VStr "red"; VInt 1]
            (∅ : dict)
          = Ok ([VInt 0; VStr "red"; VInt 1], ∅))
    by (vm_compute; reflexivity).
  destruct (RadialGradient_add_stop_returns_None
              [mkObject RadialGradient None ∅ []]
              0%nat _ _ _ _ _ _ eq_refl eq_refl Hbind)
    as (h' & Hcall & _ & _ & Hstop & Hg & _).
  exists h'. split_and!; [exact Hcall|exact Hstop|].
  exact (f_equal (fmap children) Hg).
Defined.

(** ** The defs export *)

(** C9: for every instance of [DrawingDef], so of LinearGradient,
    RadialGradient, ClipPath, Mask, Filter and Marker too,
    [get_svg_defs()] returns the one-element tuple of that very
    instance, and leaves the heap alone. *)
Theorem get_svg_defs_self (h : heap) (self : ref) (o : object) :
  h !! self = Some o → issubclass (ob_class o) DrawingDef = true →
  get_svg_defs self h = Ok ([self], h).
Proof.
  intros Hself Hsub.
  assert (Hres : resolve own_get_svg_defs (ob_class o)
                 = Some DrawingDef_get_svg_defs)
    by (destruct (ob_class o); done).
  unfold get_svg_defs. by rewrite (call_method_resolved _ _ _ _ _ _ Hself Hres).
Qed.

(** A Marker at address 1 exports itself. *)
Lemma get_svg_defs_self_witness :
  get_svg_defs 1%nat [mkObject Mask None ∅ []; mkObject Marker None ∅ []]
  = Ok ([1%nat], [mkObject Mask None ∅ []; mkObject Marker None ∅ []]).
Proof.
  apply (get_svg_defs_self _ 1%nat (mkObject Marker None ∅ [])); reflexivity.
Defined.

(** ** Marker *)

Lemma append_empty_r (s : string) : s +:+ "" = s.
Proof.
  induction s as [|c s IH]; [done|].
  change (String c (s +:+ "") = String c s). by f_equal.
Qed.

(** The view box is the four values printed with single spaces between
    them. *)
Lemma format_viewBox (a b c d : value) :
  format "{} {} {} {}" [a; b; c; d]
  = Ok (py_str a +:+ " " +:+ py_str b +:+ " " +:+ py_str c +:+ " " +:+ py_str d).
Proof. simpl. by rewrite append_empty_r. Qed.

(** What can be subtracted from can be negated. *)
Lemma py_sub_neg (a b : value) (n : number) :
  py_sub a b = Ok n → ∃ m, py_neg a = Ok m.
Proof.
  unfold py_sub, py_neg. destruct (as_number a) as [[z|f]|]; [eauto..|done].
Qed.

(** A parameter given by keyword is bound to the keyword's value. *)
Lemma bind_params_keyword ps pos kw vs (kwargs : dict) (i : nat)
    (name : string) (dflt : option value) (v : value) :
  NoDup ps.*1 → bind_params ps pos kw = Ok (vs, kwargs) →
  ps !! i = Some (name, dflt) → kw !! name = Some v → vs !! i = Some v.
Proof.
  revert pos kw vs kwargs i.
  induction ps as [|[n0 d0] ps IH]; intros pos kw vs kwargs i Hnd Hb Hi Hkw;
    [done|].
  apply NoDup_cons in Hnd as [Hn0 Hnd]. simpl in Hb.
  destruct pos as [|p pos].
  - destruct (kw !! n0) as [v0|] eqn:Hn0kw.
    + destruct (bind_params ps [] (delete n0 kw)) as [[vs' kwargs']|] eqn:Hrec;
        [|done].
      simpl in Hb. injection Hb as <- <-.
      destruct i as [|i]; simpl in *.
      * injection Hi as <- <-. congruence.
      * eapply IH; [done|exact Hrec|exact Hi|].
        rewrite lookup_delete_ne; [done|].
        intros <-. apply Hn0.
        eapply (list_elem_of_fmap_2' fst _ (n0, dflt));
          [by eapply list_elem_of_lookup_2|done].
    + destruct d0 as [d|]; [|done].
      destruct (bind_params ps [] kw) as [[vs' kwargs']|] eqn:Hrec; [|done].
      simpl in Hb. injection Hb as <- <-.
      destruct i as [|i]; simpl in *; [injection Hi as <- <-; congruence|].
      by eapply IH.
  - destruct (kw !! n0) as [v0|] eqn:Hn0kw; [done|].
    destruct (bind_params ps pos kw) as [[vs' kwargs']|] eqn:Hrec; [|done].
    simpl in Hb. injection Hb as <- <-.
    destruct i as [|i]; simpl in *; [injection Hi as <- <-; congruence|].
    by eapply IH.
Qed.

(** What [Marker(...)] builds, given how its arguments bind and what
    the arithmetic yields. *)
Lemma new_Marker pos kw minx miny maxx maxy scale orient (kwargs : dict)
    (h : heap) (width height markerWidth markerHeight : number) :
  bind_params Marker___init___params pos kw
  = Ok ([minx; miny; maxx; maxy; scale; orient], kwargs) →
  py_sub maxx minx = Ok width → py_sub maxy miny = Ok height →
  marker_size width scale = Ok markerWidth →
  marker_size height scale = Ok markerHeight →
  ∃ neg_maxy, py_neg maxy = Ok neg_maxy ∧
    new Marker pos kw h
    = Ok (length h,
          h ++ [mkObject Marker None
                  (kwargs ∪
                   <["orient" := orient]>
                     (<["viewBox" :=
                          VStr (py_str minx +:+ " " +:+ py_str (VNum neg_maxy)
                                  +:+ " " +:+ py_str (VNum width)
                                  +:+ " " +:+ py_str (VNum height))]>
                        (<["markerHeight" := VNum markerHeight]>
                           (<["markerWidth" := VNum markerWidth]> ∅))))
                  []]).
Proof.
  intros Hbind Hwidth Hheight Hmw Hmh.
  destruct (py_sub_neg _ _ _ Hheight) as [neg_maxy Hneg].
  exists neg_maxy. split; [done|]. unfold new.
  rewrite (M_bind_ok _ _ _ _ _ (alloc_spec Marker h)).
  change (resolve own___init__ Marker) with (Some Marker___init__).
  erewrite M_bind_ok; [done|].
  unfold Marker___init__.
  rewrite (lift_ok _ _ _ _ Hbind). cbv beta iota.
  rewrite (lift_ok _ _ _ _ Hwidth), (lift_ok _ _ _ _ Hheight).
  rewrite (lift_ok _ _ _ _ Hmw), (lift_ok _ _ _ _ Hmh).
  rewrite (lift_ok _ _ _ _ Hneg).
  rewrite (lift_ok _ _ _ _ (format_viewBox _ _ _ _)).
  apply base_init_fresh.
Qed.




(** C7: keywords of a Marker call that bear the name of a computed
    attribute win over the computed value.  For [markerWidth],
    [markerHeight] and [viewBox] the keyword lands in [kwargs], which is
    merged after the computed entries; [orient] is a parameter of the
    constructor, so the caller's value is the one the entry is built
    from. *)
Theorem Marker_keywords_override pos kw minx miny maxx maxy scale orient
    (kwargs : dict) (h : heap) (width height markerWidth markerHeight : number) :
  bind_params Marker___init___params pos kw
  = Ok ([minx; miny; maxx; maxy; scale; orient], kwargs) →
  py_sub maxx minx = Ok width → py_sub maxy miny = Ok height →
  marker_size width scale = Ok markerWidth →
  marker_size height scale = Ok markerHeight →
  ∃ o, new Marker pos kw h = Ok (length h, h ++ [o]) ∧
    (∀ k v, k ∈ ["markerWidth"; "markerHeight"; "viewBox"; "orient"] →
            kw !! k = Some v → args o !! k = Some v) ∧
    (∀ k v, kwargs !! k = Some v → args o !! k = Some v).
Proof.
  intros Hbind Hwidth Hheight Hmw Hmh.
  destruct (new_Marker _ _ _ _ _ _ _ _ _ h _ _ _ _ Hbind Hwidth Hheight Hmw Hmh)
    as (neg_maxy & Hneg & Hnew).
  eexists. split; [exact Hnew|].
  assert (Hmerge : ∀ k v, kwargs !! k = Some v →
            (kwargs ∪ <["orient" := orient]>
               (<["viewBox" :=
                    VStr (py_str minx +:+ " " +:+ py_str (VNum neg_maxy)
                            +:+ " " +:+ py_str (VNum width)
                            +:+ " " +:+ py_str (VNum height))]>
                  (<["markerHeight" := VNum markerHeight]>
                     (<["markerWidth" := VNum markerWidth]> ∅)))) !! k
            = Some v)
    by (intros k v Hk; by apply lookup_union_Some_l).
  split; [|exact Hmerge].
  intros k v Hk Hkw. simpl.
  destruct (decide (k = "orient")) as [->|Hne].
  - assert (Horient : [minx; miny; maxx; maxy; scale; orient] !! 5%nat = Some v).
    { eapply (bind_params_keyword _ _ _ _ _ 5 "orient");
        [|exact Hbind|reflexivity|exact Hkw].
      compute_done. }
    injection Horient as ->.
    rewrite lookup_union_r; [by simplify_map_eq|].
    eapply bind_params_fresh; [exact Hbind|]. compute_done.
  - apply Hmerge. rewrite (bind_params_extra _ _ _ _ _ _ Hbind); [done|].
    repeat (apply elem_of_cons in Hk as [->|Hk]; [first [compute_done|done]|]).
    by apply elem_of_nil in Hk.
Qed.

(** [Marker(0, 0, 10, 20, scale=2, markerWidth=3, viewBox="0 0 1 1",
    orient="auto-start-reverse")] stores the three given values, and the
    computed [markerHeight = 40.0]. *)
Lemma Marker_keywords_override_witness :
  ∃ o, new Marker [VInt 0; VInt 0; VInt 10; VInt 20]
         {[ "scale" := VInt 2; "markerWidth" := VInt 3;
            "viewBox" := VStr "0 0 1 1";
            "orient" := VStr "auto-start-reverse" ]} []
       = Ok (0%nat, [o]) ∧
       args o !! "markerWidth" = Some (VInt 3) ∧
       args o !! "viewBox" = Some (VStr "0 0 1 1") ∧
       args o !! "orient" = Some (VStr "auto-start-reverse").
Proof.
  assert (Hbind : bind_params Marker___init___params
            [VInt 0; VInt 0; VInt 10; VInt 20]
            ({[ "scale" := VInt 2; "markerWidth" := VInt 3;
                "viewBox" := VStr "0 0 1 1";
                "orient" := VStr "auto-start-reverse" ]} : dict)
          = Ok ([VInt 0; VInt 0; VInt 10; VInt 20; VInt 2;
                 VStr "auto-start-reverse"],
                {[ "markerWidth" := VInt 3; "viewBox" := VStr "0 0 1 1" ]}))
    by (vm_compute; reflexivity).
  destruct (Marker_keywords_override _ _ _ _ _ _ _ _ _ []
              (NInt 10) (NInt 20)
              (NFloat (S754_finite false 5629499534213120 (-48)))
              (NFloat (S754_finite false 5629499534213120 (-47)))
              Hbind eq_refl eq_refl
              ltac:(vm_compute; reflexivity) ltac:(vm_compute; reflexivity))
    as (o & Hnew & Hover & _).
  exists o. split_and!; [exact Hnew|..]; apply Hover; compute_done.
Defined.

(** ** FilterItem *)

Lemma new_FilterItem pos kw tag_name (attrs : dict) (h : heap) :
  bind_params FilterItem___init___params pos kw = Ok ([tag_name], attrs) →
  new FilterItem pos kw h
  = Ok (length h, h ++ [mkObject FilterItem (Some tag_name) attrs []]).
Proof.
  intros Hbind. unfold new.
  rewrite (M_bind_ok _ _ _ _ _ (alloc_spec FilterItem h)).
  change (resolve own___init__ FilterItem) with (Some FilterItem___init__).
  erewrite M_bind_ok; [done|].
  unfold FilterItem___init__.
  rewrite (lift_ok _ _ _ _ Hbind). cbv beta iota.
  rewrite (M_bind_ok _ _ _ _ _ (base_init_fresh h (blank FilterItem) attrs)).
  rewrite (M_bind_ok _ _ _ _ _ (load_fresh h _)).
  apply store_fresh.
Qed.

(** C8: [FilterItem(tag_name, **attrs)] builds an element whose tag is
    [tag_name], set on the instance and so read before any class-level
    [TAG_NAME], and whose attributes are exactly the other keywords of
    the call, handed on unchanged to the base constructor. *)
Theorem FilterItem_tag_and_attributes pos kw tag_name (attrs : dict)
    (h : heap) :
  bind_params FilterItem___init___params pos kw = Ok ([tag_name], attrs) →
  ∃ o, new FilterItem pos kw h = Ok (length h, h ++ [o]) ∧
    ob_class o = FilterItem ∧
    TAG_NAME o = Some tag_name ∧
    args o = attrs ∧
    (∀ k, k ≠ "tag_name" → args o !! k = kw !! k) ∧
    args o !! "tag_name" = None.
Proof.
  intros Hbind. eexists. split; [by apply new_FilterItem|].
  split_and!; try done; simpl.
  - intros k Hk. apply (bind_params_extra _ _ _ _ _ _ Hbind).
    apply not_elem_of_cons. split; [done|apply not_elem_of_nil].
  - apply (bind_params_fresh _ _ _ _ _ _ Hbind). simpl. set_solver.
Qed.

(** [FilterItem("feGaussianBlur", stdDeviation=3)] has the tag
    [feGaussianBlur] and the attribute [stdDeviation = 3]. *)
Lemma FilterItem_tag_and_attributes_witness :
  ∃ o, new FilterItem [VStr "feGaussianBlur"] {[ "stdDeviation" := VInt 3 ]} []
       = Ok (0%nat, [o]) ∧
       TAG_NAME o = Some (VStr "feGaussianBlur") ∧
       args o !! "stdDeviation" = Some (VInt 3).
Proof.
  assert (Hbind : bind_params FilterItem___init___params
            [VStr "feGaussianBlur"] ({[ "stdDeviation" := VInt 3 ]} : dict)
          = Ok ([VStr "feGaussianBlur"], {[ "stdDeviation" := VInt 3 ]}))
    by (vm_compute; reflexivity).
  destruct (FilterItem_tag_and_attributes _ _ _ _ [] Hbind)
    as (o & Hnew & _ & Htag & Hargs & _).
  exists o. split_and!; [exact Hnew|exact Htag|].
  rewrite Hargs. vm_compute; reflexivity.
Defined.

(** * Further properties *)

(** ** Exceptions through the monads *)

Lemma M_bind_raise {A B} (m : M A) (k : A → M B) (h : heap) (e : exn) :
  m h = Raise e → (m ≫= k) h = Raise e.
Proof. intros Hm. unfold mbind, M_bind. by rewrite Hm. Qed.

Lemma lift_raise {A B} (r : result A) (k : A → M B) (h : heap) (e : exn) :
  r = Raise e → (lift r ≫= k) h = Raise e.
Proof. intros ->. done. Qed.

(** Instantiation, once the constructor is resolved. *)
Lemma new_resolved (c : class) (init : ref → list value → dict → M unit)
    pos kw (h : heap) :
  resolve own___init__ c = Some init →
  new c pos kw h
  = match init (length h) pos kw (h ++ [blank c]) with
    | Ok (_, h') => Ok (length h, h')
    | Raise e => Raise e
    end.
Proof.
  intros Hres. unfold new.
  rewrite (M_bind_ok _ _ _ _ _ (alloc_spec c h)). rewrite Hres.
  unfold mbind at 1, M_bind at 1.
  by destruct (init _ _ _ _) as [[[] h']|e].
Qed.

(** ** When a call binds *)

Lemma bind_params_length ps pos kw vs (kwargs : dict) :
  bind_params ps pos kw = Ok (vs, kwargs) → length vs = length ps.
Proof.
  revert pos kw vs kwargs.
  induction ps as [|[name dflt] ps IH]; intros pos kw vs kwargs Hb; simpl in Hb.
  - destruct pos; [|done]. by injection Hb as <- <-.
  - destruct pos as [|p pos].
    + destruct (kw !! name) as [v|].
      * destruct (bind_params ps [] (delete name kw)) as [[vs' kwargs']|] eqn:Hrec;
          [|done].
        simpl in Hb. injection Hb as <- <-. simpl. f_equal. by eapply IH.
      * destruct dflt as [d|]; [|done].
        destruct (bind_params ps [] kw) as [[vs' kwargs']|] eqn:Hrec; [|done].
        simpl in Hb. injection Hb as <- <-. simpl. f_equal. by eapply IH.
    + destruct (kw !! name) as [v|]; [done|].
      destruct (bind_params ps pos kw) as [[vs' kwargs']|] eqn:Hrec; [|done].
      simpl in Hb. injection Hb as <- <-. simpl. f_equal. by eapply IH.
Qed.








Ltac bound_values Hbind vs :=
  let Hlen := fresh "Hlen" in
  pose proof (bind_params_length _ _ _ _ _ Hbind) as Hlen;
  repeat (destruct vs as [|? vs]; try discriminate Hlen); clear Hlen.

(** ** When the constructors return *)

Lemma new_LinearGradient_raises pos kw (h : heap) (e : exn) :
  bind_params LinearGradient___init___params pos kw = Raise e →
  new LinearGradient pos kw h = Raise e.
Proof.
  intros Hbind. rewrite (new_resolved _ LinearGradient___init__) by done.
  unfold LinearGradient___init__. by rewrite (lift_raise _ _ _ _ Hbind).
Qed.

Lemma new_RadialGradient_raises pos kw (h : heap) (e : exn) :
  bind_params RadialGradient___init___params pos kw = Raise e →
  new RadialGradient pos kw h = Raise e.
Proof.
  intros Hbind. rewrite (new_resolved _ RadialGradient___init__) by done.
  unfold RadialGradient___init__. by rewrite (lift_raise _ _ _ _ Hbind).
Qed.

Lemma new_FilterItem_raises pos kw (h : heap) (e : exn) :
  bind_params FilterItem___init___params pos kw = Raise e →
  new FilterItem pos kw h = Raise e.
Proof.
  intros Hbind. rewrite (new_resolved _ FilterItem___init__) by done.
  unfold FilterItem___init__. by rewrite (lift_raise _ _ _ _ Hbind).
Qed.







(** ** Marker: what it rejects *)

Lemma py_sub_non_numeric (a b : value) :
  as_number a = None ∨ as_number b = None → py_sub a b = Raise TypeError.
Proof.
  unfold py_sub. intros [-> | ->]; [done|].
  by destruct (as_number a) as [[z|f]|].
Qed.

Lemma new_Marker_steps pos kw minx miny maxx maxy scale orient (kwargs : dict)
    (h : heap) :
  bind_params Marker___init___params pos kw
  = Ok ([minx; miny; maxx; maxy; scale; orient], kwargs) →
  new Marker pos kw h
  = match py_sub maxx minx with
    | Raise e => Raise e
    | Ok width =>
        match py_sub maxy miny with
        | Raise e => Raise e
        | Ok height =>
            match marker_size width scale with
            | Raise e => Raise e
            | Ok _ =>
                match marker_size height scale with
                | Raise e => Raise e
                | Ok _ => new Marker pos kw h
                end
            end
        end
    end.
Proof.
  intros Hbind.
  destruct (py_sub maxx minx) as [width|e] eqn:Hw;
    [destruct (py_sub maxy miny) as [height|e] eqn:Hh;
       [destruct (marker_size width scale) as [mw|e] eqn:Hmw;
          [destruct (marker_size height scale) as [mh|e] eqn:Hmh; [done|]|]|]|];
    rewrite (new_resolved _ Marker___init__) by done;
    unfold Marker___init__;
    rewrite (lift_ok _ _ _ _ Hbind); cbv beta iota;
    repeat first [ erewrite lift_raise by eassumption; reflexivity
                 | erewrite lift_ok by eassumption ].
Qed.

(** Unlike the gradients, [Marker] guards nothing: a bound that is not
    a number ([None], a string) is a [TypeError], and so is a [scale]
    that is not a number once the sizes have to be multiplied by it. *)
Theorem Marker_rejects_non_numbers pos kw minx miny maxx maxy scale orient
    (kwargs : dict) (h : heap) :
  bind_params Marker___init___params pos kw
  = Ok ([minx; miny; maxx; maxy; scale; orient], kwargs) →
  (as_number maxx = None ∨ as_number minx = None →
   new Marker pos kw h = Raise TypeError) ∧
  (∀ width, py_sub maxx minx = Ok width →
     as_number maxy = None ∨ as_number miny = None →
     new Marker pos kw h = Raise TypeError) ∧
  (∀ width height f,
     py_sub maxx minx = Ok width → py_sub maxy miny = Ok height →
     py_float width = Ok f → as_number scale = None →
     new Marker pos kw h = Raise TypeError).
Proof.
  intros Hbind. rewrite (new_Marker_steps _ _ _ _ _ _ _ _ _ h Hbind).
  split_and!.
  - intros Hnon. by rewrite (py_sub_non_numeric _ _ Hnon).
  - intros width -> Hnon. by rewrite (py_sub_non_numeric _ _ Hnon).
  - intros width height f -> -> Hf Hscale.
    unfold marker_size at 1, py_eq. rewrite Hscale.
    destruct scale as [|b|n|s]; try done; by rewrite Hf; unfold py_mul_float.
Qed.

(** [Marker(0, 0, None, 1)], [Marker(0, "0", 1, 1)] and
    [Marker(0, 0, 1, 1, scale="2")] all raise [TypeError]. *)
Lemma Marker_rejects_non_numbers_witness :
  new Marker [VInt 0; VInt 0; VNone; VInt 1] ∅ [] = Raise TypeError ∧
  new Marker [VInt 0; VStr "0"; VInt 1; VInt 1] ∅ [] = Raise TypeError ∧
  new Marker [VInt 0; VInt 0; VInt 1; VInt 1; VStr "2"] ∅ [] = Raise TypeError.
Proof.
  split_and!.
  - assert (Hbind : bind_params Marker___init___params
              [VInt 0; VInt 0; VNone; VInt 1] (∅ : dict)
            = Ok ([VInt 0; VInt 0; VNone; VInt 1; VInt 1; VStr "auto"], ∅))
      by (vm_compute; reflexivity).
    apply (proj1 (Marker_rejects_non_numbers _ _ _ _ _ _ _ _ _ [] Hbind)).
    left. reflexivity.
  - assert (Hbind : bind_params Marker___init___params
              [VInt 0; VStr "0"; VInt 1; VInt 1] (∅ : dict)
            = Ok ([VInt 0; VStr "0"; VInt 1; VInt 1; VInt 1; VStr "auto"], ∅))
      by (vm_compute; reflexivity).
    apply (proj1 (proj2 (Marker_rejects_non_numbers _ _ _ _ _ _ _ _ _ [] Hbind))
             (NInt 1) eq_refl).
    right. reflexivity.
  - assert (Hbind : bind_params Marker___init___params
              [VInt 0; VInt 0; VInt 1; VInt 1; VStr "2"] (∅ : dict)
            = Ok ([VInt 0; VInt 0; VInt 1; VInt 1; VStr "2"; VStr "auto"], ∅))
      by (vm_compute; reflexivity).
    apply (proj2 (proj2 (Marker_rejects_non_numbers _ _ _ _ _ _ _ _ _ [] Hbind))
             (NInt 1) (NInt 1) (S754_finite false 4503599627370496 (-52))
             eq_refl eq_refl eq_refl eq_refl).
Defined.

(** ** Marker on integers *)



(** ** The gradients' units *)

Lemma py_eq_str (v : value) (s : string) : py_eq v (VStr s) = true ↔ v = VStr s.
Proof.
  split; [|intros ->; simpl; apply String.eqb_refl].
  destruct v as [|b|[z|f]|t]; simpl; try done.
  by intros ->%String.eqb_eq.
Qed.

Lemma y_shift_not_literal (gradientUnits : value) :
  gradientUnits ≠ VStr "userSpaceOnUse" → y_shift gradientUnits = VInt 1.
Proof.
  intros Hne. unfold y_shift, py_ne.
  destruct (py_eq gradientUnits (VStr "userSpaceOnUse")) eqn:Heq; [|done].
  by apply py_eq_str in Heq.
Qed.

(** Only the very string ["userSpaceOnUse"] selects the shift [0].  Any
    other value of [gradientUnits], a string or not ([None], a number),
    is stored as given and makes the constructors store [1 - z] for an
    integer coordinate [z]. *)
Theorem units_other_than_the_literal_flip :
  (∀ pos kw x1 y1 x2 y2 gradientUnits (kwargs : dict) (h : heap) (z1 z2 : Z),
     gradientUnits ≠ VStr "userSpaceOnUse" →
     as_number y1 = Some (NInt z1) → as_number y2 = Some (NInt z2) →
     bind_params LinearGradient___init___params pos kw
     = Ok ([x1; y1; x2; y2; gradientUnits], kwargs) →
     ∃ o, new LinearGradient pos kw h = Ok (length h, h ++ [o]) ∧
       args o !! "y1" = Some (VInt (1 - z1)) ∧
       args o !! "y2" = Some (VInt (1 - z2)) ∧
       args o !! "gradientUnits" = Some gradientUnits) ∧
  (∀ pos kw cx cy r gradientUnits fy (kwargs : dict) (h : heap) (z1 z2 : Z),
     gradientUnits ≠ VStr "userSpaceOnUse" →
     as_number cy = Some (NInt z1) → as_number fy = Some (NInt z2) →
     bind_params RadialGradient___init___params pos kw
     = Ok ([cx; cy; r; gradientUnits; fy], kwargs) →
     ∃ o, new RadialGradient pos kw h = Ok (length h, h ++ [o]) ∧
       args o !! "cy" = Some (VInt (1 - z1)) ∧
       args o !! "fy" = Some (VInt (1 - z2)) ∧
       args o !! "gradientUnits" = Some gradientUnits).
Proof.
  split.
  - intros pos kw x1 y1 x2 y2 gradientUnits kwargs h z1 z2 Hne Hy1 Hy2 Hbind.
    eexists. split.
    + eapply new_LinearGradient; [exact Hbind|..];
        rewrite (y_shift_not_literal _ Hne); by apply try_sub_int.
    + split_and!; stored_attr.
  - intros pos kw cx cy r gradientUnits fy kwargs h z1 z2 Hne Hcy Hfy Hbind.
    eexists. split.
    + eapply new_RadialGradient; [exact Hbind|..];
        rewrite (y_shift_not_literal _ Hne); by apply try_sub_int.
    + split_and!; stored_attr.
Qed.

(** [LinearGradient(0, 0, 1, True, gradientUnits=None)] stores
    [y1 = 1], [y2 = 0] and [gradientUnits = None]. *)
Lemma units_other_than_the_literal_flip_witness :
  ∃ o, new LinearGradient [VInt 0; VInt 0; VInt 1; VBool true]
         {[ "gradientUnits" := VNone ]} []
       = Ok (0%nat, [o]) ∧
       args o !! "y1" = Some (VInt 1) ∧ args o !! "y2" = Some (VInt 0) ∧
       args o !! "gradientUnits" = Some VNone.
Proof.
  assert (Hbind : bind_params LinearGradient___init___params
            [VInt 0; VInt 0; VInt 1; VBool true]
            ({[ "gradientUnits" := VNone ]} : dict)
          = Ok ([VInt 0; VInt 0; VInt 1; VBool true; VNone], ∅))
    by (vm_compute; reflexivity).
  assert (Hne : VNone ≠ VStr "userSpaceOnUse") by discriminate.
  exact (proj1 units_other_than_the_literal_flip _ _
           (VInt 0) (VInt 0) (VInt 1) (VBool true) VNone ∅ [] 0 1
           Hne eq_refl eq_refl Hbind).
Defined.

(** ** Flipping twice *)

Lemma new_LinearGradient_positional x1 y1 x2 y2 gradientUnits (h : heap)
    (y1' y2' : value) :
  except_TypeError (VNum <$> py_sub (y_shift gradientUnits) y1) (Ok y1) = Ok y1' →
  except_TypeError (VNum <$> py_sub (y_shift gradientUnits) y2) (Ok y2) = Ok y2' →
  new LinearGradient [x1; y1; x2; y2; gradientUnits] ∅ h
  = Ok (length h,
        h ++ [mkObject LinearGradient None
                (<["x1" := x1]> (<["y1" := y1']> (<["x2" := x2]>
                   (<["y2" := y2']> (<["gradientUnits" := gradientUnits]> ∅)))))
                []]).
Proof. intros Hy1 Hy2. by eapply new_LinearGradient. Qed.

Lemma new_RadialGradient_positional cx cy r gradientUnits fy (h : heap)
    (cy' fy' : value) :
  except_TypeError (VNum <$> py_sub (y_shift gradientUnits) cy) (Ok cy) = Ok cy' →
  except_TypeError (VNum <$> py_sub (y_shift gradientUnits) fy) (Ok fy) = Ok fy' →
  new RadialGradient [cx; cy; r; gradientUnits; fy] ∅ h
  = Ok (length h,
        h ++ [mkObject RadialGradient None
                (<["cx" := cx]> (<["cy" := cy']> (<["r" := r]>
                   (<["gradientUnits" := gradientUnits]> (<["fy" := fy']> ∅)))))
                []]).
Proof. intros Hcy Hfy. by eapply new_RadialGradient. Qed.

Lemma second_allocation (h : heap) (o1 o2 : object) :
  Ok (length (h ++ [o1]), (h ++ [o1]) ++ [o2])
  = (Ok (S (length h), h ++ [o1; o2]) : result (ref * heap)).
Proof. rewrite length_app, <- app_assoc. simpl. do 2 f_equal. lia. Qed.

Lemma try_sub_int_twice (gradientUnits : value) (z : Z) :
  ∃ v, except_TypeError (VNum <$> py_sub (y_shift gradientUnits) (VInt z))
         (Ok (VInt z)) = Ok v ∧
       except_TypeError (VNum <$> py_sub (y_shift gradientUnits) v) (Ok v)
       = Ok (VInt z).
Proof.
  destruct (y_shift_cases gradientUnits) as [-> | ->].
  - exists (VInt (0 - z)). split; [by apply try_sub_int|].
    rewrite (try_sub_int 0 (0 - z)) by done. do 2 f_equal. lia.
  - exists (VInt (1 - z)). split; [by apply try_sub_int|].
    rewrite (try_sub_int 1 (1 - z)) by done. do 2 f_equal. lia.
Qed.

(** On integers the flip undoes itself: a gradient built from the
    stored coordinates of a gradient, under the same [gradientUnits],
    stores the integer y-coordinates the first one was given. *)
Theorem gradient_flip_twice_is_identity_on_ints :
  (∀ x1 x2 gradientUnits (z1 z2 : Z) (h : heap),
     ∃ o1 o2 v1 v2,
       new LinearGradient [x1; VInt z1; x2; VInt z2; gradientUnits] ∅ h
       = Ok (length h, h ++ [o1]) ∧
       args o1 !! "y1" = Some v1 ∧ args o1 !! "y2" = Some v2 ∧
       new LinearGradient [x1; v1; x2; v2; gradientUnits] ∅ (h ++ [o1])
       = Ok (S (length h), h ++ [o1; o2]) ∧
       args o2 !! "y1" = Some (VInt z1) ∧ args o2 !! "y2" = Some (VInt z2)) ∧
  (∀ cx r gradientUnits (z1 z2 : Z) (h : heap),
     ∃ o1 o2 v1 v2,
       new RadialGradient [cx; VInt z1; r; gradientUnits; VInt z2] ∅ h
       = Ok (length h, h ++ [o1]) ∧
       args o1 !! "cy" = Some v1 ∧ args o1 !! "fy" = Some v2 ∧
       new RadialGradient [cx; v1; r; gradientUnits; v2] ∅ (h ++ [o1])
       = Ok (S (length h), h ++ [o1; o2]) ∧
       args o2 !! "cy" = Some (VInt z1) ∧ args o2 !! "fy" = Some (VInt z2)).
Proof.
  split.
  - intros x1 x2 gradientUnits z1 z2 h.
    destruct (try_sub_int_twice gradientUnits z1) as (v1 & Hv1 & Hback1).
    destruct (try_sub_int_twice gradientUnits z2) as (v2 & Hv2 & Hback2).
    eexists _, _, v1, v2. split_and!.
    + by apply new_LinearGradient_positional.
    + stored_attr.
    + stored_attr.
    + rewrite <- second_allocation. by apply new_LinearGradient_positional.
    + stored_attr.
    + stored_attr.
  - intros cx r gradientUnits z1 z2 h.
    destruct (try_sub_int_twice gradientUnits z1) as (v1 & Hv1 & Hback1).
    destruct (try_sub_int_twice gradientUnits z2) as (v2 & Hv2 & Hback2).
    eexists _, _, v1, v2. split_and!.
    + by apply new_RadialGradient_positional.
    + stored_attr.
    + stored_attr.
    + rewrite <- second_allocation. by apply new_RadialGradient_positional.
    + stored_attr.
    + stored_attr.
Qed.

Lemma SFsub_zero_twice (f : spec_float) :
  f ≠ S754_zero true →
  SFsub prec emax (S754_zero false) (SFsub prec emax (S754_zero false) f) = f.
Proof. by destruct f as [[]|[]| |[] m e]. Qed.

(** In user space the flip is a negation, and negating a float twice
    gives the float back bit for bit, with the one exception of the
    negative zero: a LinearGradient built from the stored y-coordinates of
    a ["userSpaceOnUse"] LinearGradient stores the floats the first was
    given. *)
Theorem userSpaceOnUse_negation_twice_on_floats x1 x2 (f1 f2 : spec_float)
    (h : heap) :
  f1 ≠ S754_zero true → f2 ≠ S754_zero true →
  ∃ o1 o2 v1 v2,
    new LinearGradient [x1; VFloat f1; x2; VFloat f2; VStr "userSpaceOnUse"] ∅ h
    = Ok (length h, h ++ [o1]) ∧
    args o1 !! "y1" = Some v1 ∧ args o1 !! "y2" = Some v2 ∧
    new LinearGradient [x1; v1; x2; v2; VStr "userSpaceOnUse"] ∅ (h ++ [o1])
    = Ok (S (length h), h ++ [o1; o2]) ∧
    args o2 !! "y1" = Some (VFloat f1) ∧ args o2 !! "y2" = Some (VFloat f2).
Proof.
  intros Hf1 Hf2.
  eexists _, _, (VFloat (SFsub prec emax (S754_zero false) f1)),
    (VFloat (SFsub prec emax (S754_zero false) f2)).
  split_and!.
  - apply new_LinearGradient_positional; rewrite y_shift_userSpaceOnUse;
      (eapply try_sub_float; [apply float_of_Z_0|done]).
  - stored_attr.
  - stored_attr.
  - rewrite <- second_allocation.
    apply new_LinearGradient_positional; rewrite y_shift_userSpaceOnUse;
      (erewrite try_sub_float; [|apply float_of_Z_0|done]);
      by rewrite SFsub_zero_twice.
  - stored_attr.
  - stored_attr.
Qed.

(** [0.5] and [-inf] come back from two constructions. *)
Lemma userSpaceOnUse_negation_twice_on_floats_witness :
  ∃ o1 o2,
    new LinearGradient
      [VInt 0; VFloat (S754_finite false 4503599627370496 (-53)); VInt 0;
       VFloat (S754_infinity true); VStr "userSpaceOnUse"] ∅ []
    = Ok (0%nat, [o1]) ∧
    args o1 !! "y1" = Some (VFloat (S754_finite true 4503599627370496 (-53))) ∧
    args o2 !! "y1" = Some (VFloat (S754_finite false 4503599627370496 (-53))) ∧
    args o2 !! "y2" = Some (VFloat (S754_infinity true)).
Proof.
  destruct (userSpaceOnUse_negation_twice_on_floats (VInt 0) (VInt 0)
              (S754_finite false 4503599627370496 (-53)) (S754_infinity true) []
              ltac:(discriminate) ltac:(discriminate))
    as (o1 & o2 & v1 & v2 & Hnew & Hv1 & _ & _ & Hy1 & Hy2).
  exists o1, o2. split_and!; [exact Hnew| |exact Hy1|exact Hy2].
  vm_compute in Hnew. injection Hnew as <-. vm_compute. reflexivity.
Defined.

(** ** More on add_stop *)

(** A keyword of the call that repeats an explicit one is refused. *)
Lemma call_kwargs_duplicate explicit (kwargs : dict) (k : string) :
  k ∈ explicit.*1 → is_Some (kwargs !! k) →
  call_kwargs explicit kwargs = Raise TypeError.
Proof.
  intros Hin [v Hk].
  induction explicit as [|[k0 v0] explicit IH]; simpl in *;
    [by apply elem_of_nil in Hin|].
  destruct (kwargs !! k0) as [v'|] eqn:Hk0; [done|].
  apply elem_of_cons in Hin as [->|Hin]; [congruence|].
  by rewrite (IH Hin).
Qed.

Lemma gradient_has_content (o : object) :
  ob_class o = LinearGradient ∨ ob_class o = RadialGradient →
  has_content o = Some true.
Proof. unfold has_content. by intros [-> | ->]. Qed.

(** [g.add_stop(...)] on either gradient, keywords included. *)
Lemma add_stop_gradient (h : heap) (g : ref) (o : object) pos kw
    offset color opacity (kwargs : dict) :
  h !! g = Some o →
  ob_class o = LinearGradient ∨ ob_class o = RadialGradient →
  bind_params add_stop_params pos kw = Ok ([offset; color; opacity], kwargs) →
  kwargs !! "stop_color" = None → kwargs !! "stop_opacity" = None →
  add_stop g pos kw h
  = Ok (if decide (ob_class o = LinearGradient) then Some (length h) else None,
        <[g := set_children (children o ++ [length h]) o]>
          (h ++ [mkObject GradientStop None
                   (<["offset" := offset]> (<["stop_color" := color]>
                      (<["stop_opacity" := opacity]> kwargs))) []])).
Proof.
  intros Hg Hclass Hbind Hcolor Hopacity.
  pose proof (gradient_has_content o Hclass) as Hcontent.
  unfold add_stop. destruct Hclass as [Hclass|Hclass].
  - erewrite call_method_resolved; [|done|by rewrite Hclass].
    rewrite decide_True by done. by eapply LinearGradient_add_stop_spec.
  - erewrite call_method_resolved; [|done|by rewrite Hclass].
    rewrite decide_False by congruence. by eapply RadialGradient_add_stop_spec.
Qed.

(** [add_stop] with an opacity and with extra keywords: the new stop
    holds [offset], the colour under [stop_color] and the opacity under
    [stop_opacity], never under the parameters' own names, and every
    other keyword of the call as it was given. *)
Theorem add_stop_forwards_keywords (h : heap) (g : ref) (o : object) pos kw
    offset color opacity (kwargs : dict) :
  h !! g = Some o →
  ob_class o = LinearGradient ∨ ob_class o = RadialGradient →
  bind_params add_stop_params pos kw = Ok ([offset; color; opacity], kwargs) →
  kw !! "stop_color" = None → kw !! "stop_opacity" = None →
  ∃ ret h' stop,
    add_stop g pos kw h = Ok (ret, h') ∧
    h' !! length h = Some stop ∧
    ob_class stop = GradientStop ∧ children stop = [] ∧
    args stop !! "offset" = Some offset ∧
    args stop !! "stop_color" = Some color ∧
    args stop !! "stop_opacity" = Some opacity ∧
    args stop !! "color" = None ∧
    args stop !! "opacity" = None ∧
    (∀ k, k ∉ ["offset"; "color"; "opacity"; "stop_color"; "stop_opacity"] →
          args stop !! k = kw !! k).
Proof.
  intros Hg Hclass Hbind Hcolor Hopacity.
  assert (Hextra : ∀ k, k ∉ add_stop_params.*1 → kwargs !! k = kw !! k)
    by (intros k Hk; exact (bind_params_extra _ _ _ _ _ _ Hbind Hk)).
  assert (Hfresh : ∀ k, k ∈ add_stop_params.*1 → kwargs !! k = None)
    by (intros k Hk; exact (bind_params_fresh _ _ _ _ _ _ Hbind Hk)).
  eexists _, _, _. split.
  { eapply add_stop_gradient; try done; rewrite Hextra; try done; compute_done. }
  destruct (with_child_facts h g o
              (mkObject GradientStop None
                 (<["offset" := offset]> (<["stop_color" := color]>
                    (<["stop_opacity" := opacity]> kwargs))) []) Hg)
    as (Hstop & _).
  split; [exact Hstop|]. simpl. split_and!; try done; try by simplify_map_eq.
  - rewrite !lookup_insert_ne by done. apply Hfresh. compute_done.
  - rewrite !lookup_insert_ne by done. apply Hfresh. compute_done.
  - intros k Hk. repeat (apply not_elem_of_cons in Hk as [? Hk]).
    rewrite !lookup_insert_ne by done. apply Hextra.
    repeat (apply not_elem_of_cons; split; [done|]). apply not_elem_of_nil.
Qed.

(** [g.add_stop(1, "blue", 0.5, id="last")] on a RadialGradient. *)
Lemma add_stop_forwards_keywords_witness :
  ∃ h' stop,
    add_stop 0%nat
      [VInt 1; VStr "blue"; VFloat (S754_finite false 4503599627370496 (-53))]
      {[ "id" := VStr "last" ]} [mkObject RadialGradient None ∅ []]
    = Ok (None, h') ∧
    h' !! 1%nat = Some stop ∧
    args stop !! "stop_opacity"
    = Some (VFloat (S754_finite false 4503599627370496 (-53))) ∧
    args stop !! "id" = Some (VStr "last").
Proof.
  assert (Hbind : bind_params add_stop_params
            [VInt 1; VStr "blue";
             VFloat (S754_finite false 4503599627370496 (-53))]
            ({[ "id" := VStr "last" ]} : dict)
          = Ok ([VInt 1; VStr "blue";
                 VFloat (S754_finite false 4503599627370496 (-53))],
                {[ "id" := VStr "last" ]}))
    by (vm_compute; reflexivity).
  destruct (add_stop_forwards_keywords
              [mkObject RadialGradient None ∅ []] 0%nat _ _ _ _ _ _ _
              eq_refl (or_intror eq_refl) Hbind
              ltac:(vm_compute; reflexivity) ltac:(vm_compute; reflexivity))
    as (ret & h' & stop & Hcall & Hstop & _ & _ & _ & _ & Hop & _ & _ & Hkw).
  exists h', stop. split_and!; [|exact Hstop|exact Hop|].
  - pose proof Hcall as Hret. vm_compute in Hret. injection Hret as Hret _.
    subst ret. exact Hcall.
  - rewrite (Hkw "id") by compute_done. vm_compute. reflexivity.
Defined.

(** A keyword [stop_color] or [stop_opacity] passed to [add_stop] meets
    the one the method writes itself: the call is a [TypeError], on both
    gradients, and no stop is made. *)
Theorem add_stop_refuses_stop_keywords (h : heap) (g : ref) (o : object)
    pos kw offset color opacity (kwargs : dict) :
  h !! g = Some o →
  ob_class o = LinearGradient ∨ ob_class o = RadialGradient →
  bind_params add_stop_params pos kw = Ok ([offset; color; opacity], kwargs) →
  is_Some (kw !! "stop_color") ∨ is_Some (kw !! "stop_opacity") →
  add_stop g pos kw h = Raise TypeError.
Proof.
  intros Hg Hclass Hbind Hdup.
  assert (Hkwargs : call_kwargs [("offset", offset); ("stop_color", color);
                                 ("stop_opacity", opacity)] kwargs
                    = Raise TypeError).
  { destruct Hdup as [Hdup|Hdup].
    - apply (call_kwargs_duplicate _ _ "stop_color"); [compute_done|].
      rewrite (bind_params_extra _ _ _ _ _ _ Hbind); [done|compute_done].
    - apply (call_kwargs_duplicate _ _ "stop_opacity"); [compute_done|].
      rewrite (bind_params_extra _ _ _ _ _ _ Hbind); [done|compute_done]. }
  unfold add_stop. destruct Hclass as [Hclass|Hclass];
    (erewrite call_method_resolved; [|done|by rewrite Hclass]).
  - unfold LinearGradient_add_stop.
    rewrite (lift_ok _ _ _ _ Hbind). cbv beta iota.
    by rewrite (lift_raise _ _ _ _ Hkwargs).
  - unfold RadialGradient_add_stop.
    rewrite (lift_ok _ _ _ _ Hbind). cbv beta iota.
    by rewrite (lift_raise _ _ _ _ Hkwargs).
Qed.

(** [g.add_stop(0, "red", stop_color="blue")] *)
Lemma add_stop_refuses_stop_keywords_witness :
  add_stop 0%nat [VInt 0; VStr "red"] {[ "stop_color" := VStr "blue" ]}
    [mkObject LinearGradient None ∅ []]
  = Raise TypeError.
Proof.
  assert (Hbind : bind_params add_stop_params [VInt 0; VStr "red"]
            ({[ "stop_color" := VStr "blue" ]} : dict)
          = Ok ([VInt 0; VStr "red"; VNone], {[ "stop_color" := VStr "blue" ]}))
    by (vm_compute; reflexivity).
  apply (add_stop_refuses_stop_keywords
           [mkObject LinearGradient None ∅ []] 0%nat _ _ _ _ _ _ _
           eq_refl (or_introl eq_refl) Hbind).
  left. exists (VStr "blue"). vm_compute. reflexivity.
Defined.

(** Two calls of [add_stop] on a gradient, one after the other: the two
    stops are the last two children, in the order of the calls, each
    with the attributes of its call. *)
Theorem add_stop_twice_in_order (h : heap) (g : ref) (o : object)
    pos1 kw1 pos2 kw2 offset1 color1 opacity1 offset2 color2 opacity2 :
  h !! g = Some o →
  ob_class o = LinearGradient ∨ ob_class o = RadialGradient →
  bind_params add_stop_params pos1 kw1
  = Ok ([offset1; color1; opacity1], ∅) →
  bind_params add_stop_params pos2 kw2
  = Ok ([offset2; color2; opacity2], ∅) →
  ∃ ret h',
    (add_stop g pos1 kw1 ≫= λ _, add_stop g pos2 kw2) h = Ok (ret, h') ∧
    length h' = S (S (length h)) ∧
    children <$> (h' !! g) = Some (children o ++ [length h; S (length h)]) ∧
    h' !! length h
    = Some (mkObject GradientStop None
              {[ "offset" := offset1; "stop_color" := color1;
                 "stop_opacity" := opacity1 ]} []) ∧
    h' !! S (length h)
    = Some (mkObject GradientStop None
              {[ "offset" := offset2; "stop_color" := color2;
                 "stop_opacity" := opacity2 ]} []).
Proof.
  intros Hg Hclass Hbind1 Hbind2.
  pose proof (lookup_lt_Some _ _ _ Hg) as Hlt.
  set (s1 := mkObject GradientStop None
               {[ "offset" := offset1; "stop_color" := color1;
                  "stop_opacity" := opacity1 ]} []).
  set (s2 := mkObject GradientStop None
               {[ "offset" := offset2; "stop_color" := color2;
                  "stop_opacity" := opacity2 ]} []).
  set (o1 := set_children (children o ++ [length h]) o).
  set (h1 := <[g := o1]> (h ++ [s1])).
  destruct (with_child_facts h g o s1 Hg) as (Hs1 & Hg1 & Hlen1 & _).
  fold o1 h1 in Hs1, Hg1, Hlen1.
  destruct (with_child_facts h1 g o1 s2 Hg1) as (Hs2 & Hg2 & Hlen2 & Hframe).
  set (h2 := <[g := set_children (children o1 ++ [length h1]) o1]> (h1 ++ [s2]))
    in *.
  assert (Hcall : (add_stop g pos1 kw1 ≫= λ _, add_stop g pos2 kw2) h
                  = Ok (if decide (ob_class o1 = LinearGradient)
                        then Some (length h1) else None, h2)).
  { erewrite M_bind_ok;
      [|by eapply (add_stop_gradient h g o pos1 kw1 _ _ _ ∅)].
    by eapply (add_stop_gradient h1 g o1 pos2 kw2 _ _ _ ∅). }
  exists (if decide (ob_class o1 = LinearGradient) then Some (length h1) else None),
    h2.
  split; [exact Hcall|]. split_and!.
  - by rewrite Hlen2, Hlen1.
  - rewrite Hg2. simpl. by rewrite Hlen1, <- app_assoc.
  - apply Hframe; [lia|exact Hs1].
  - rewrite <- Hlen1. exact Hs2.
Qed.

(** [g.add_stop(0, "red"); g.add_stop(1, "blue")] on a fresh
    LinearGradient. *)
Lemma add_stop_twice_in_order_witness :
  ∃ ret h',
    (add_stop 0%nat [VInt 0; VStr "red"] ∅
       ≫= λ _, add_stop 0%nat [VInt 1; VStr "blue"] ∅)
      [mkObject LinearGradient None ∅ []]
    = Ok (ret, h') ∧
    children <$> (h' !! 0%nat) = Some [1%nat; 2%nat] ∧
    ob_class <$> (h' !! 2%nat) = Some GradientStop.
Proof.
  assert (Hbind1 : bind_params add_stop_params [VInt 0; VStr "red"] (∅ : dict)
                   = Ok ([VInt 0; VStr "red"; VNone], ∅))
    by (vm_compute; reflexivity).
  assert (Hbind2 : bind_params add_stop_params [VInt 1; VStr "blue"] (∅ : dict)
                   = Ok ([VInt 1; VStr "blue"; VNone], ∅))
    by (vm_compute; reflexivity).
  destruct (add_stop_twice_in_order
              [mkObject LinearGradient None ∅ []] 0%nat _ _ _ _ _ _ _ _ _ _ _
              eq_refl (or_introl eq_refl) Hbind1 Hbind2)
    as (ret & h' & Hcall & _ & Hchildren & _ & Hs2).
  exists ret, h'. split_and!; [exact Hcall|exact Hchildren|].
  exact (f_equal (fmap ob_class) Hs2).
Defined.

(** ** What a successful call has done *)

Lemma new_plain (c : class) pos kw (h : heap) :
  resolve own___init__ c = Some DrawingParentElement___init__ →
  new c pos kw h
  = match pos with
    | [] => Ok (length h, h ++ [mkObject c None kw []])
    | _ :: _ => Raise TypeError
    end.
Proof.
  intros Hres. rewrite (new_resolved _ _ _ _ _ Hres). destruct pos as [|p pos].
  - by rewrite base_init_fresh.
  - unfold DrawingParentElement___init__. simpl bind_params.
    by rewrite (lift_raise _ _ _ TypeError).
Qed.

Lemma new_Marker_raises pos kw (h : heap) (e : exn) :
  bind_params Marker___init___params pos kw = Raise e →
  new Marker pos kw h = Raise e.
Proof.
  intros Hbind. rewrite (new_resolved _ Marker___init__) by done.
  unfold Marker___init__. by rewrite (lift_raise _ _ _ _ Hbind).
Qed.

Lemma new_inv (c : class) pos kw (h h' : heap) (r : ref) :
  new c pos kw h = Ok (r, h') →
  r = length h ∧
  ∃ o, h' = h ++ [o] ∧ ob_class o = c ∧ children o = [] ∧
       (c ≠ FilterItem → ob_TAG_NAME o = None).
Proof.
  intros Hnew.
  assert (Hplain : resolve own___init__ c = Some DrawingParentElement___init__ →
            r = length h ∧
            ∃ o, h' = h ++ [o] ∧ ob_class o = c ∧ children o = [] ∧
                 (c ≠ FilterItem → ob_TAG_NAME o = None)).
  { intros Hres. rewrite (new_plain _ _ _ _ Hres) in Hnew.
    destruct pos; [|done]. injection Hnew as <- <-. eauto 10. }
  destruct c; try (by apply Hplain).
  - destruct (bind_params LinearGradient___init___params pos kw)
      as [[vs kwargs]|e] eqn:Hbind;
      [|by rewrite (new_LinearGradient_raises _ _ _ _ Hbind) in Hnew].
    bound_values Hbind vs.
    destruct (try_sub_total v3 v0) as [y1' Hy1].
    destruct (try_sub_total v3 v2) as [y2' Hy2].
    rewrite (new_LinearGradient _ _ _ _ _ _ _ _ h _ _ Hbind Hy1 Hy2) in Hnew.
    injection Hnew as <- <-. eauto 10.
  - destruct (bind_params RadialGradient___init___params pos kw)
      as [[vs kwargs]|e] eqn:Hbind;
      [|by rewrite (new_RadialGradient_raises _ _ _ _ Hbind) in Hnew].
    bound_values Hbind vs.
    destruct (try_sub_total v2 v0) as [cy' Hcy].
    destruct (try_sub_total v2 v3) as [fy' Hfy].
    rewrite (new_RadialGradient _ _ _ _ _ _ _ _ h _ _ Hbind Hcy Hfy) in Hnew.
    injection Hnew as <- <-. eauto 10.
  - destruct (bind_params FilterItem___init___params pos kw)
      as [[vs attrs]|e] eqn:Hbind;
      [|by rewrite (new_FilterItem_raises _ _ _ _ Hbind) in Hnew].
    bound_values Hbind vs.
    rewrite (new_FilterItem _ _ _ _ h Hbind) in Hnew.
    injection Hnew as <- <-. split; [done|]. eexists. by split_and!.
  - destruct (bind_params Marker___init___params pos kw)
      as [[vs kwargs]|e] eqn:Hbind;
      [|by rewrite (new_Marker_raises _ _ _ _ Hbind) in Hnew].
    bound_values Hbind vs.
    rewrite (new_Marker_steps _ _ _ _ _ _ _ _ _ h Hbind) in Hnew.
    destruct (py_sub v1 v) as [width|] eqn:Hw; [|done].
    destruct (py_sub v2 v0) as [height|] eqn:Hh; [|done].
    destruct (marker_size width v3) as [mw|] eqn:Hmw; [|done].
    destruct (marker_size height v3) as [mh|] eqn:Hmh; [|done].
    destruct (new_Marker _ _ _ _ _ _ _ _ _ h _ _ _ _ Hbind Hw Hh Hmw Hmh)
      as (neg_maxy & _ & Heq).
    rewrite Heq in Hnew. injection Hnew as <- <-. eauto 10.
Qed.

(** Every constructor of the module, when it returns, has allocated
    exactly one element at the next free address and touched nothing
    else: the element is of the class called, has no children, and,
    FilterItem apart, carries the tag of its class. *)
Theorem constructors_allocate_one_element (c : class) pos kw (h h' : heap)
    (r : ref) :
  new c pos kw h = Ok (r, h') →
  r = length h ∧
  ∃ o, h' = h ++ [o] ∧ ob_class o = c ∧ children o = [] ∧
       (c ≠ FilterItem → TAG_NAME o = VStr <$> own_TAG_NAME c).
Proof.
  intros (-> & o & -> & Hclass & Hchildren & Htag)%new_inv.
  split; [done|]. exists o. split_and!; try done.
  intros Hc. unfold TAG_NAME. rewrite (Htag Hc), Hclass. by destruct c.
Qed.

(** [ClipPath(id="clip")] next to an element already there. *)
Lemma constructors_allocate_one_element_witness :
  ∃ o, new ClipPath [] {[ "id" := VStr "clip" ]} [mkObject Mask None ∅ []]
       = Ok (1%nat, [mkObject Mask None ∅ []; o]) ∧
       TAG_NAME o = Some (VStr "clipPath") ∧ children o = [].
Proof.
  assert (Hnew : new ClipPath [] {[ "id" := VStr "clip" ]}
                   [mkObject Mask None ∅ []]
                 = Ok (1%nat, [mkObject Mask None ∅ [];
                               mkObject ClipPath None {[ "id" := VStr "clip" ]} []]))
    by (vm_compute; reflexivity).
  destruct (constructors_allocate_one_element _ _ _ _ _ _ Hnew)
    as (_ & o & Hheap & _ & Hchildren & Htag).
  exists o. split_and!.
  - rewrite Hnew. simpl in Hheap. by rewrite Hheap.
  - apply Htag. discriminate.
  - exact Hchildren.
Defined.

Lemma add_stop_inv (g : ref) pos kw (h h' : heap) (ret : option ref) :
  add_stop g pos kw h = Ok (ret, h') →
  ∃ o s, h !! g = Some o ∧
    (ob_class o = LinearGradient ∨ ob_class o = RadialGradient) ∧
    ob_class s = GradientStop ∧ children s = [] ∧
    h' = <[g := set_children (children o ++ [length h]) o]> (h ++ [s]).
Proof.
  intros Hcall. unfold add_stop, call_method in Hcall.
  destruct (h !! g) as [o|] eqn:Hg;
    [|by unfold mbind, M_bind, load in Hcall; rewrite Hg in Hcall].
  rewrite (M_bind_ok _ _ h h o) in Hcall by (unfold load; by rewrite Hg).
  assert (Hclass : ob_class o = LinearGradient ∨ ob_class o = RadialGradient)
    by (destruct (ob_class o); try done; auto).
  destruct (bind_params add_stop_params pos kw) as [[vs kwargs]|e] eqn:Hbind.
  - bound_values Hbind vs.
    destruct (kwargs !! "stop_color") as [c|] eqn:Hcolor;
      [|destruct (kwargs !! "stop_opacity") as [c|] eqn:Hopacity].
    + assert (Hkw : call_kwargs [("offset", v); ("stop_color", v0);
                                 ("stop_opacity", v1)] kwargs = Raise TypeError)
        by (apply (call_kwargs_duplicate _ _ "stop_color");
            [compute_done|by rewrite Hcolor]).
      destruct Hclass as [Hc|Hc]; rewrite Hc in Hcall; simpl in Hcall.
      * unfold LinearGradient_add_stop in Hcall.
        rewrite (lift_ok _ _ _ _ Hbind) in Hcall. cbv beta iota in Hcall.
        by rewrite (lift_raise _ _ _ _ Hkw) in Hcall.
      * unfold RadialGradient_add_stop in Hcall.
        rewrite (lift_ok _ _ _ _ Hbind) in Hcall. cbv beta iota in Hcall.
        by rewrite (lift_raise _ _ _ _ Hkw) in Hcall.
    + assert (Hkw : call_kwargs [("offset", v); ("stop_color", v0);
                                 ("stop_opacity", v1)] kwargs = Raise TypeError)
        by (apply (call_kwargs_duplicate _ _ "stop_opacity");
            [compute_done|by rewrite Hopacity]).
      destruct Hclass as [Hc|Hc]; rewrite Hc in Hcall; simpl in Hcall.
      * unfold LinearGradient_add_stop in Hcall.
        rewrite (lift_ok _ _ _ _ Hbind) in Hcall. cbv beta iota in Hcall.
        by rewrite (lift_raise _ _ _ _ Hkw) in Hcall.
      * unfold RadialGradient_add_stop in Hcall.
        rewrite (lift_ok _ _ _ _ Hbind) in Hcall. cbv beta iota in Hcall.
        by rewrite (lift_raise _ _ _ _ Hkw) in Hcall.
    + pose proof (gradient_has_content o Hclass) as Hcontent.
      destruct Hclass as [Hc|Hc]; rewrite Hc in Hcall; simpl in Hcall.
      * rewrite (LinearGradient_add_stop_spec h g o pos kw kwargs v v0 v1
                   Hg Hcontent Hbind Hcolor Hopacity) in Hcall.
        injection Hcall as <- <-. eexists o, _. by split_and!; [..|done]; auto.
      * rewrite (RadialGradient_add_stop_spec h g o pos kw kwargs v v0 v1
                   Hg Hcontent Hbind Hcolor Hopacity) in Hcall.
        injection Hcall as <- <-. eexists o, _. by split_and!; [..|done]; auto.
  - destruct Hclass as [Hc|Hc]; rewrite Hc in Hcall; simpl in Hcall.
    + unfold LinearGradient_add_stop in Hcall.
      by rewrite (lift_raise _ _ _ _ Hbind) in Hcall.
    + unfold RadialGradient_add_stop in Hcall.
      by rewrite (lift_raise _ _ _ _ Hbind) in Hcall.
Qed.

(** ** The element tree *)

Lemma ownership_after_new (h : heap) (o : object) :
  children o = [] →
  allocated_children h → single_parent h →
  allocated_children (h ++ [o]) ∧ single_parent (h ++ [o]).
Proof.
  intros Hleaf Halloc Hsingle.
  assert (Hold : ∀ r x c, (h ++ [o]) !! r = Some x → c ∈ children x →
                          h !! r = Some x).
  { intros r x c [Hr|[_ Hx]]%lookup_app_Some; [done|].
    apply list_lookup_singleton_Some in Hx as [_ <-].
    rewrite Hleaf. by intros ?%elem_of_nil. }
  split.
  - intros r x c Hr Hc. rewrite length_app. simpl.
    pose proof (Halloc r x c (Hold _ _ _ Hr Hc) Hc). lia.
  - intros r1 r2 o1 o2 i1 i2 c Hr1 Hr2 Hc1 Hc2.
    apply (Hsingle r1 r2 o1 o2 i1 i2 c); [| |done|done].
    + eapply Hold; [done|by eapply list_elem_of_lookup_2].
    + eapply Hold; [done|by eapply list_elem_of_lookup_2].
Qed.

Lemma ownership_after_add_stop (h : heap) (g : ref) (o s : object) :
  h !! g = Some o → children s = [] →
  allocated_children h → single_parent h →
  allocated_children
    (<[g := set_children (children o ++ [length h]) o]> (h ++ [s])) ∧
  single_parent
    (<[g := set_children (children o ++ [length h]) o]> (h ++ [s])).
Proof.
  intros Hg Hleaf Halloc Hsingle.
  pose proof (lookup_lt_Some _ _ _ Hg) as Hlt.
  set (o' := set_children (children o ++ [length h]) o).
  (* an element of the new heap is the parent, an old element or the stop *)
  assert (Hcases : ∀ r x,
            (<[g := o']> (h ++ [s])) !! r = Some x →
            (r = g ∧ x = o') ∨ (r ≠ g ∧ h !! r = Some x) ∨ x = s).
  { intros r x Hr. destruct (decide (r = g)) as [->|Hne].
    - left. split; [done|].
      rewrite list_lookup_insert_eq in Hr by (rewrite length_app; simpl; lia).
      by injection Hr.
    - rewrite list_lookup_insert_ne in Hr by done.
      apply lookup_app_Some in Hr as [Hr|[_ Hx]]; [auto|].
      apply list_lookup_singleton_Some in Hx as [_ <-]. auto. }
  (* a child of the new heap is an old child or the stop under the parent *)
  assert (Hchild : ∀ r x i c,
            (<[g := o']> (h ++ [s])) !! r = Some x → children x !! i = Some c →
            (∃ x0, h !! r = Some x0 ∧ children x0 !! i = Some c ∧
                   (c < length h)%nat) ∨
            (r = g ∧ i = length (children o) ∧ c = length h)).
  { intros r x i c Hr Hc.
    destruct (Hcases _ _ Hr) as [[-> ->]|[[Hne Hold]| ->]].
    - simpl in Hc. apply lookup_snoc_Some in Hc as [[_ Hc]|[-> <-]]; [|by right].
      left. exists o. split_and!; [done..|].
      eapply Halloc; [exact Hg|by eapply list_elem_of_lookup_2].
    - left. exists x. split_and!; [done..|].
      eapply Halloc; [exact Hold|by eapply list_elem_of_lookup_2].
    - by rewrite Hleaf in Hc. }
  split.
  - intros r x c Hr [i Hc]%list_elem_of_lookup_1.
    rewrite length_insert, length_app. simpl.
    destruct (Hchild _ _ _ _ Hr Hc) as [(x0 & _ & _ & Hc0)|(_ & _ & ->)]; lia.
  - intros r1 r2 o1 o2 i1 i2 c Hr1 Hr2 Hc1 Hc2.
    destruct (Hchild _ _ _ _ Hr1 Hc1) as [(x1 & Hx1 & Hi1 & Hlt1)|(-> & -> & ->)];
      destruct (Hchild _ _ _ _ Hr2 Hc2) as [(x2 & Hx2 & Hi2 & Hlt2)|(-> & -> & Hc)];
      try lia.
    by eapply Hsingle.
Qed.

(** The elements form a forest and the module keeps it one: if every
    child is an allocated element and no element is a child twice, the
    same holds after any constructor of the module and after any
    [add_stop] that returns.  The empty store is such a forest. *)
Theorem ownership_is_kept (h : heap) :
  allocated_children h → single_parent h →
  (∀ c pos kw r h', new c pos kw h = Ok (r, h') →
     allocated_children h' ∧ single_parent h') ∧
  (∀ g pos kw ret h', add_stop g pos kw h = Ok (ret, h') →
     allocated_children h' ∧ single_parent h').
Proof.
  intros Halloc Hsingle. split.
  - intros c pos kw r h' (_ & o & -> & _ & Hleaf & _)%new_inv.
    by apply ownership_after_new.
  - intros g pos kw ret h' (o & s & Hg & _ & _ & Hleaf & ->)%add_stop_inv.
    by apply ownership_after_add_stop.
Qed.

(** From the empty store: a gradient, then a stop on it. *)
Lemma ownership_is_kept_witness :
  ∃ h', (new LinearGradient [VInt 0; VInt 0; VInt 1; VInt 1] ∅
           ≫= λ g, add_stop g [VInt 0; VStr "red"] ∅) [] = Ok (Some 1%nat, h') ∧
        allocated_children h' ∧ single_parent h'.
Proof.
  assert (Hempty : allocated_children [] ∧ single_parent [])
    by (split; [intros r o c Hr|intros r1 r2 o1 o2 i1 i2 c Hr]; discriminate Hr).
  destruct (new LinearGradient [VInt 0; VInt 0; VInt 1; VInt 1] ∅ [])
    as [[g h1]|e] eqn:Hnew; [|vm_compute in Hnew; discriminate Hnew].
  destruct (proj1 (ownership_is_kept [] (proj1 Hempty) (proj2 Hempty))
              _ _ _ _ _ Hnew) as [Halloc1 Hsingle1].
  destruct (add_stop g [VInt 0; VStr "red"] ∅ h1)
    as [[ret h2]|e] eqn:Hcall;
    [|vm_compute in Hnew; injection Hnew as <- <-;
      vm_compute in Hcall; discriminate Hcall].
  destruct (proj2 (ownership_is_kept h1 Halloc1 Hsingle1) _ _ _ _ _ Hcall)
    as [Halloc2 Hsingle2].
  exists h2. split_and!; [|exact Halloc2|exact Hsingle2].
  unfold mbind, M_bind. rewrite Hnew, Hcall.
  vm_compute in Hnew. injection Hnew as <- <-.
  vm_compute in Hcall. injection Hcall as <- _. reflexivity.
Defined.

(** ** Scaled markers *)

Lemma marker_size_scaled (size markerSize : number) (scale : value) :
  py_eq scale (VInt 1) = false → marker_size size scale = Ok markerSize →
  ∃ f, markerSize = NFloat f.
Proof.
  unfold marker_size, py_mul_float. intros -> Hsize.
  destruct (py_float size) as [f|]; [|done]. simpl in Hsize.
  destruct (as_number scale) as [y|]; [|done].
  destruct (py_float y) as [fy|]; [|done]. simpl in Hsize.
  injection Hsize as <-. eauto.
Qed.

(** With a scale other than one, a Marker that is built stores floats as
    [markerWidth] and [markerHeight], whatever the types of the bounds
    and of the scale, unless keywords of those names replace them. *)
Theorem Marker_scaled_sizes_are_floats pos kw minx miny maxx maxy scale orient
    (kwargs : dict) (h h' : heap) (r : ref) :
  bind_params Marker___init___params pos kw
  = Ok ([minx; miny; maxx; maxy; scale; orient], kwargs) →
  py_eq scale (VInt 1) = false →
  kwargs !! "markerWidth" = None → kwargs !! "markerHeight" = None →
  new Marker pos kw h = Ok (r, h') →
  ∃ o fw fh, h' !! r = Some o ∧
    args o !! "markerWidth" = Some (VFloat fw) ∧
    args o !! "markerHeight" = Some (VFloat fh).
Proof.
  intros Hbind Hscale Hw Hh Hnew.
  rewrite (new_Marker_steps _ _ _ _ _ _ _ _ _ h Hbind) in Hnew.
  destruct (py_sub maxx minx) as [width|] eqn:Hwidth; [|done].
  destruct (py_sub maxy miny) as [height|] eqn:Hheight; [|done].
  destruct (marker_size width scale) as [mw|] eqn:Hmw; [|done].
  destruct (marker_size height scale) as [mh|] eqn:Hmh; [|done].
  destruct (marker_size_scaled _ _ _ Hscale Hmw) as [fw ->].
  destruct (marker_size_scaled _ _ _ Hscale Hmh) as [fh ->].
  destruct (new_Marker _ _ _ _ _ _ _ _ _ h _ _ _ _ Hbind Hwidth Hheight Hmw Hmh)
    as (neg_maxy & _ & Heq).
  rewrite Heq in Hnew. injection Hnew as <- <-.
  eexists _, fw, fh. split; [apply lookup_fresh|].
  split; simpl; rewrite lookup_union_r by done; by simplify_map_eq.
Qed.

(** [Marker(0, 0, 3, 3, 0)] stores the floats [0.0], not the integer
    [0]. *)
Lemma Marker_scaled_sizes_are_floats_witness :
  ∃ o, new Marker [VInt 0; VInt 0; VInt 3; VInt 3; VInt 0] ∅ []
       = Ok (0%nat, [o]) ∧
       args o !! "markerWidth" = Some (VFloat (S754_zero false)) ∧
       args o !! "markerHeight" = Some (VFloat (S754_zero false)).
Proof.
  assert (Hbind : bind_params Marker___init___params
            [VInt 0; VInt 0; VInt 3; VInt 3; VInt 0] (∅ : dict)
          = Ok ([VInt 0; VInt 0; VInt 3; VInt 3; VInt 0; VStr "auto"], ∅))
    by (vm_compute; reflexivity).
  assert (Hnew : new Marker [VInt 0; VInt 0; VInt 3; VInt 3; VInt 0] ∅ []
                 = Ok (0%nat,
                       [mkObject Marker None
                          {[ "orient" := VStr "auto"; "viewBox" := VStr "0 -3 3 3";
                             "markerHeight" := VFloat (S754_zero false);
                             "markerWidth" := VFloat (S754_zero false) ]} []]))
    by (vm_compute; reflexivity).
  destruct (Marker_scaled_sizes_are_floats _ _ _ _ _ _ _ _ _ _ _ _
              Hbind eq_refl eq_refl eq_refl Hnew)
    as (o & fw & fh & Ho & _ & _).
  injection Ho as <-. eexists. split; [exact Hnew|]. split; vm_compute; reflexivity.
Defined.

(** ** The class hierarchy *)


